(** * Challenges screen: lifecycle and progress engine

    A shallow embedding of [frontend/app/(tabs)/challenges.tsx]: the
    challenge catalog and badge registry, the progress derivation of
    [renderChallenge], the element tree the component renders, and the
    three asynchronous handlers ([loadChallenges], [startChallenge],
    [handleCheckIn]) as an event-driven transition system over the
    component state. *)

From Stdlib Require Import ZArith QArith Qcanon Qround Qpower Qabs.
From Stdlib Require Import Lia Lqa List Bool Ascii String.
From Stdlib Require SpecFloat.
From stdpp Require Import base option list gmap.
Import ListNotations.

#[local] Open Scope Z_scope.
#[local] Set Warnings "-register-all,-clear-no-such-hyp".

(** ** JavaScript values *)

Module JS.

(** *** Numbers

    A JavaScript [number] is an IEEE 754 binary64 value.  A finite value
    is held as the rational it denotes, with negative zero apart; [/] and
    [*] follow ECMAScript: the special-value rules first, and on finite
    non-zero operands the exact quotient or product rounded to the nearest
    binary64 value, ties to even, overflowing to an infinity.  Module
    [Binary64] below checks the two operations against the reference
    implementation [SpecFloat] of the standard library. *)

Inductive number : Type :=
| NaN
| Infinity (negative : bool)
| NegZero
| Fin (q : Qc).

Definition Qc_of_Z (z : Z) : Qc := Q2Qc (inject_Z z).

(** An integer literal or integer result (below 2^53 in magnitude). *)
Definition of_Z (z : Z) : number := Fin (Qc_of_Z z).

Definition is_zero (q : Qc) : bool :=
  if Qc_eq_dec q (Qc_of_Z 0) then true else false.

Definition is_neg (q : Qc) : bool :=
  match (q ?= Qc_of_Z 0)%Qc with Lt => true | _ => false end.

(** The sign bit; [-0] has it set. *)
Definition sign (x : number) : bool :=
  match x with
  | NaN => false
  | Infinity s => s
  | NegZero => true
  | Fin q => is_neg q
  end.

(** The zero of the given sign. *)
Definition zero (negative : bool) : number :=
  if negative then NegZero else Fin (Qc_of_Z 0).

(** [+0] or [-0] *)
Definition zero_valued (x : number) : bool :=
  match x with
  | NegZero => true
  | Fin q => is_zero q
  | _ => false
  end.

(** The rational a finite number denotes. *)
Definition value_of (x : number) : Qc :=
  match x with
  | Fin q => q
  | _ => Qc_of_Z 0
  end.

(** **** Rounding to binary64 *)

Definition prec : Z := 53.
Definition emax : Z := 1024.
Definition emin : Z := 3 - emax - prec.

(** The exponent of the last place of a value of magnitude [k]. *)
Definition fexp (k : Z) : Z := Z.max (k - prec) emin.

Definition bpow (e : Z) : Q := (2 ^ e)%Q.

(** The magnitude of a positive rational [a]: the [k] with
    [2^(k-1) <= a < 2^k]. *)
Definition mag (a : Q) : Z :=
  let k := Z.log2 (Qnum a) - Z.log2 (Zpos (Qden a)) in
  if Qle_bool (bpow k) a then k + 1 else k.

(** The nearest integer, ties to even. *)
Definition rne (s : Q) : Z :=
  let f := Qfloor s in
  match (s - inject_Z f ?= 1 # 2)%Q with
  | Lt => f
  | Gt => f + 1
  | Eq => if Z.even f then f else f + 1
  end.

(** The multiple of the last place nearest to a positive rational [a]. *)
Definition round_pos (a : Q) : Q :=
  let e := fexp (mag a) in (inject_Z (rne (a / bpow e)) * bpow e)%Q.

(** The binary64 value of a non-zero exact result [x]. *)
Definition round64 (x : Qc) : number :=
  let r := round_pos (Qabs x) in
  if Qle_bool (bpow emax) r then Infinity (is_neg x)
  else if Qeq_bool r 0 then zero (is_neg x)
  else Fin (Q2Qc (if is_neg x then - r else r)).

(** [x / y] *)
Definition div (x y : number) : number :=
  match x, y with
  | NaN, _ | _, NaN => NaN
  | Infinity _, Infinity _ => NaN
  | Infinity s, (NegZero | Fin _) => Infinity (xorb s (sign y))
  | (NegZero | Fin _), Infinity s => zero (xorb (sign x) s)
  | (NegZero | Fin _), (NegZero | Fin _) =>
      if zero_valued y
      then (if zero_valued x then NaN else Infinity (xorb (sign x) (sign y)))
      else if zero_valued x then zero (xorb (sign x) (sign y))
      else round64 (value_of x / value_of y)%Qc
  end.

(** [x * y] *)
Definition mul (x y : number) : number :=
  match x, y with
  | NaN, _ | _, NaN => NaN
  | Infinity s, Infinity t => Infinity (xorb s t)
  | Infinity s, (NegZero | Fin _) =>
      if zero_valued y then NaN else Infinity (xorb s (sign y))
  | (NegZero | Fin _), Infinity s =>
      if zero_valued x then NaN else Infinity (xorb (sign x) s)
  | (NegZero | Fin _), (NegZero | Fin _) =>
      if zero_valued x || zero_valued y then zero (xorb (sign x) (sign y))
      else round64 (value_of x * value_of y)%Qc
  end.

(** [x <= y]; every comparison with [NaN] is false, and the two zeros
    compare equal. *)
Definition leb (x y : number) : bool :=
  match x, y with
  | NaN, _ | _, NaN => false
  | Infinity true, _ => true
  | _, Infinity false => true
  | Infinity false, _ => false
  | _, Infinity true => false
  | (NegZero | Fin _), (NegZero | Fin _) =>
      match (value_of x ?= value_of y)%Qc with Gt => false | _ => true end
  end.

(** [x < y] *)
Definition ltb (x y : number) : bool :=
  match x, y with
  | NaN, _ | _, NaN => false
  | Infinity s, Infinity t => s && negb t
  | Infinity s, (NegZero | Fin _) => s
  | (NegZero | Fin _), Infinity t => negb t
  | (NegZero | Fin _), (NegZero | Fin _) =>
      match (value_of x ?= value_of y)%Qc with Lt => true | _ => false end
  end.

Definition is_finite (x : number) : bool :=
  match x with Fin _ | NegZero => true | _ => false end.

(** ToBoolean on numbers: the zeros and [NaN] are falsy. *)
Definition truthy_number (x : number) : bool :=
  match x with
  | NaN => false
  | Infinity _ => true
  | NegZero => false
  | Fin q => negb (is_zero q)
  end.

(** *** Strings

    A JavaScript string is a sequence of UTF-16 code units. *)

Definition code_unit := N.
Definition jsstring := list code_unit.

(** ASCII literals of the source. *)
Fixpoint js (s : string) : jsstring :=
  match s with
  | EmptyString => []
  | String a rest => N_of_ascii a :: js rest
  end.

Definition jsstring_eqb (s t : jsstring) : bool := bool_decide (s = t).

(** ToBoolean on strings: only the empty string is falsy. *)
Definition truthy (s : jsstring) : bool :=
  match s with [] => false | _ :: _ => true end.

(** ECMAScript WhiteSpace and LineTerminator code points, the characters
    [String.prototype.trim] strips. *)
Definition is_white (c : code_unit) : bool :=
  ((9 <=? c) && (c <=? 13) || (c =? 32) || (c =? 160) || (c =? 5760)
   || (8192 <=? c) && (c <=? 8202) || (c =? 8232) || (c =? 8233)
   || (c =? 8239) || (c =? 8287) || (c =? 12288) || (c =? 65279))%N.

Fixpoint trimStart (s : jsstring) : jsstring :=
  match s with
  | [] => []
  | c :: rest => if is_white c then trimStart rest else s
  end.

Definition trimEnd (s : jsstring) : jsstring := rev (trimStart (rev s)).

(** [s.trim()] *)
Definition trim (s : jsstring) : jsstring := trimEnd (trimStart s).

(** *** Values that may be [undefined] *)

(** [a?.f]: member access through optional chaining. *)
Definition opt_chain {A B : Type} (a : option A) (f : A -> B) : option B :=
  match a with Some x => Some (f x) | None => None end.

(** [s || dflt] for a possibly undefined string [s]. *)
Definition or_else (s : option jsstring) (dflt : jsstring) : jsstring :=
  match s with
  | Some v => if truthy v then v else dflt
  | None => dflt
  end.

(** [s || undefined] *)
Definition or_undefined (s : jsstring) : option jsstring :=
  if truthy s then Some s else None.

(** [v + s] where [s] is a string: [ToString(v)] followed by [s]. *)
Definition add_string (v : option jsstring) (s : jsstring) : jsstring :=
  match v with
  | Some t => t ++ s
  | None => js "undefined" ++ s
  end.

(** Any JavaScript value that JSON can carry, or [undefined]. *)
Inductive value : Type :=
| VUndefined
| VNull
| VBool (b : bool)
| VNumber (n : number)
| VString (s : jsstring)
| VArray (items : list value)
| VObject (members : list (jsstring * value)).

Definition of_option (o : option jsstring) : value :=
  match o with Some s => VString s | None => VUndefined end.

(** ToBoolean: [undefined], [null], [false], the zeros, [NaN] and the
    empty string are falsy; every array and object is truthy. *)
Definition truthy_value (v : value) : bool :=
  match v with
  | VUndefined | VNull => false
  | VBool b => b
  | VNumber n => truthy_number n
  | VString s => truthy s
  | VArray _ | VObject _ => true
  end.

(** [v || dflt] *)
Definition or_value (v dflt : value) : value :=
  if truthy_value v then v else dflt.

(** *** JSON bodies

    An object literal is an ordered list of properties.  Serialising it
    ([JSON.stringify], applied by the HTTP client to a request body) omits
    every property whose value is [undefined], writes [undefined] inside
    an array and a non-finite number as [null], and [-0] as [0]. *)

Definition object := list (jsstring * value).

Inductive json : Type :=
| JNull
| JBool (b : bool)
| JString (s : jsstring)
| JNumber (q : Qc)
| JArray (items : list json)
| JObject (members : list (jsstring * json)).

Fixpoint json_of_value (v : value) : option json :=
  match v with
  | VUndefined => None
  | VNull => Some JNull
  | VBool b => Some (JBool b)
  | VString s => Some (JString s)
  | VNumber (Fin q) => Some (JNumber q)
  | VNumber NegZero => Some (JNumber (Qc_of_Z 0))
  | VNumber _ => Some JNull
  | VArray items =>
      Some (JArray (map (fun item => match json_of_value item with
                                     | Some j => j
                                     | None => JNull
                                     end) items))
  | VObject members =>
      Some (JObject
              ((fix properties (ms : list (jsstring * value)) :=
                  match ms with
                  | [] => []
                  | (k, m) :: rest =>
                      match json_of_value m with
                      | Some j => (k, j) :: properties rest
                      | None => properties rest
                      end
                  end) members))
  end.

Fixpoint stringify (o : object) : list (jsstring * json) :=
  match o with
  | [] => []
  | (k, v) :: rest =>
      match json_of_value v with
      | Some j => (k, j) :: stringify rest
      | None => stringify rest
      end
  end.

(** The value transmitted under key [k], if any. *)
Fixpoint json_get (k : jsstring) (body : list (jsstring * json)) : option json :=
  match body with
  | [] => None
  | (k', j) :: rest => if jsstring_eqb k k' then Some j else json_get k rest
  end.

End JS.

Import JS.

#[global] Instance Qc_eq_decision : EqDecision Qc := Qc_eq_dec.
#[global] Instance number_eq_decision : EqDecision number.
Proof. solve_decision. Defined.

(** ** date-fns

    A [Date] is its time value in milliseconds since the epoch, or [None]
    for an invalid date.  Local time is ECMAScript's: [LocalTZA t true] is
    the offset of local time at the instant [t], and [LocalTZA t false]
    the offset chosen for the local time value [t]; both are given by the
    host.  Comparing the local fields of two dates (year, month, day,
    hours, ...) in that order is comparing their local time values, and
    [setDate(getDate() - n)] moves the local time value back by [n] days
    of 86400000 ms. *)

Module DateFns.

Definition Date := option Z.

Definition MS_PER_DAY : Z := 86400000.

Section Zone.

Variable LocalTZA : Z -> bool -> Z.

(** [LocalTime(t)] *)
Definition LocalTime (t : Z) : Z := t + LocalTZA t true.

(** [UTC(t)], from a local time value back to an instant. *)
Definition UTC (t : Z) : Z := t - LocalTZA t false.

(** [compareLocalAsc]: -1, 0 or 1. *)
Definition compareLocalAsc (dateLeft dateRight : Z) : Z :=
  match LocalTime dateLeft ?= LocalTime dateRight with
  | Lt => -1
  | Eq => 0
  | Gt => 1
  end.

(** [startOfDay]: [setHours(0, 0, 0, 0)]. *)
Definition startOfDay (date : Z) : Z :=
  UTC (LocalTime date / MS_PER_DAY * MS_PER_DAY).

(** [getTimezoneOffsetInMilliseconds]: the instant minus the instant whose
    UTC fields are the local fields of [date]. *)
Definition getTimezoneOffsetInMilliseconds (date : Z) : Z :=
  date - LocalTime date.

(** [Math.round(n / d)] for a positive [d]: halves round up. *)
Definition Math_round (n d : Z) : Z := (2 * n + d) / (2 * d).

Definition differenceInCalendarDays (dateLeft dateRight : Z) : Z :=
  let startOfDayLeft := startOfDay dateLeft in
  let startOfDayRight := startOfDay dateRight in
  let timestampLeft :=
    startOfDayLeft - getTimezoneOffsetInMilliseconds startOfDayLeft in
  let timestampRight :=
    startOfDayRight - getTimezoneOffsetInMilliseconds startOfDayRight in
  Math_round (timestampLeft - timestampRight) MS_PER_DAY.

(** [date.setDate(date.getDate() - days)] *)
Definition setDate_back (date days : Z) : Z :=
  UTC (LocalTime date - days * MS_PER_DAY).

(** The number of full days between two valid dates. *)
Definition fullDays (dateLeft dateRight : Z) : Z :=
  let sign := compareLocalAsc dateLeft dateRight in
  let difference := Z.abs (differenceInCalendarDays dateLeft dateRight) in
  let dateLeft := setDate_back dateLeft (sign * difference) in
  let isLastDayNotFull :=
    if compareLocalAsc dateLeft dateRight =? - sign then 1 else 0 in
  sign * (difference - isLastDayNotFull).

(** A local time value that the clocks of the zone show exactly once: it
    is the local time of the instant it converts to.  Local times skipped
    when the clocks move forward are not. *)
Definition local_time_exists (t : Z) : Prop := LocalTime (UTC t) = t.

(** [differenceInDays]; the result is never [-0]. *)
Definition differenceInDays (dateLeft dateRight : Date) : number :=
  match dateLeft, dateRight with
  | Some l, Some r => of_Z (fullDays l r)
  | _, _ => NaN
  end.

End Zone.

End DateFns.

(** The ambient [Date] facilities read by a render: the parser behind
    [new Date(string)], the clock behind [new Date()], and the local time
    zone. *)
Record Env := {
  Date_parse : jsstring -> DateFns.Date;
  Date_now : Z;
  LocalTZA : Z -> bool -> Z
}.

(** ** Data model *)

(** [interface Challenge] *)
Record Challenge := {
  id : jsstring;
  challenge_type : jsstring;
  title : jsstring;
  description : jsstring;
  duration_days : number;
  start_date : jsstring;
  end_date : jsstring;
  completed_days : number;
  is_active : bool;
  is_completed : bool;
  badges : list jsstring
}.

#[global] Instance Challenge_eq_decision : EqDecision Challenge.
Proof. solve_decision. Defined.

(** The elements of [challengeTemplates]. *)
Module Template.
Record t := {
  type : jsstring;
  title : jsstring;
  description : jsstring;
  duration : number;
  icon : jsstring;
  color : jsstring
}.
End Template.

#[global] Instance Template_eq_decision : EqDecision Template.t.
Proof. solve_decision. Defined.

Definition challengeTemplates : list Template.t := [
  {| Template.type := js "hydration";
     Template.title := js "3-Day Hydration Hustle";
     Template.description := js "Drink 8 glasses of water daily";
     Template.duration := of_Z 3;
     Template.icon := js "water";
     Template.color := js "#06B6D4" |};
  {| Template.type := js "no_sugar";
     Template.title := js "No Sugar Week";
     Template.description := js "Avoid added sugars for 7 days";
     Template.duration := of_Z 7;
     Template.icon := js "close-circle";
     Template.color := js "#EF4444" |};
  {| Template.type := js "mindful_morning";
     Template.title := js "Mindful Morning Challenge";
     Template.description := js "10 minutes of meditation each morning";
     Template.duration := of_Z 7;
     Template.icon := js "sunny";
     Template.color := js "#F59E0B" |};
  {| Template.type := js "exercise";
     Template.title := js "30-Day Fitness Journey";
     Template.description := js "30 minutes of exercise daily";
     Template.duration := of_Z 30;
     Template.icon := js "fitness";
     Template.color := js "#10B981" |};
  {| Template.type := js "sleep";
     Template.title := js "Sleep Master Challenge";
     Template.description := js "8 hours of sleep for 14 days";
     Template.duration := of_Z 14;
     Template.icon := js "moon";
     Template.color := js "#6366F1" |}
].

(** The entries of [badgeInfo]. *)
Module Badge.
Record t := {
  label : jsstring;
  icon : jsstring;
  color : jsstring
}.
End Badge.

(** [badgeInfo] is a plain object indexed by badge identifier.  Indexing it
    with a key it does not own yields [undefined], or a member inherited
    from [Object.prototype]; neither has a [label], [icon] or [color], so
    under the [?.] accesses of the renderer both read as [undefined] and
    the lookup below returns [None] for them. *)
Definition badgeInfo : gmap jsstring Badge.t :=
  <[js "3_day_streak" :=
      {| Badge.label := js "3 Day Streak"; Badge.icon := js "flame";
         Badge.color := js "#F59E0B" |}]>
  (<[js "week_warrior" :=
      {| Badge.label := js "Week Warrior"; Badge.icon := js "trophy";
         Badge.color := js "#EF4444" |}]>
  (<[js "challenge_completed" :=
      {| Badge.label := js "Champion"; Badge.icon := js "ribbon";
         Badge.color := js "#6366F1" |}]> ∅)).

(** ** Progress calculator *)

(** [(challenge.completed_days / challenge.duration_days) * 100] *)
Definition progressPercent (completed_days duration_days : number) : number :=
  mul (div completed_days duration_days) (of_Z 100).

Definition progress (challenge : Challenge) : number :=
  progressPercent (completed_days challenge) (duration_days challenge).

(** [differenceInDays(new Date(challenge.end_date), new Date())] *)
Definition daysLeft (env : Env) (challenge : Challenge) : number :=
  DateFns.differenceInDays (LocalTZA env)
                           (Date_parse env (end_date challenge))
                           (Some (Date_now env)).

(** ** The rendered element tree *)

(** The [onPress] handlers the screen attaches to its controls. *)
Inductive action : Type :=
| OpenSelection                       (* () => setModalVisible(true) *)
| CloseSelection                      (* () => setModalVisible(false) *)
| StartChallenge (template : Template.t)  (* () => startChallenge(template) *)
| OpenCheckIn (challenge : Challenge) (* setSelectedChallenge(challenge); setCheckInModal(true) *)
| CloseCheckIn                        (* () => setCheckInModal(false) *)
| HandleCheckIn.                      (* handleCheckIn *)

#[global] Instance action_eq_decision : EqDecision action.
Proof. solve_decision. Defined.

(** Style entries: a named static style of [styles], or one of the two
    computed properties. *)
Inductive style : Type :=
| Static (name : string)
| BackgroundColor (c : value)
| Width (percent : number).           (* `${progress}%` *)

(** Pieces of a text or template literal: literal text and interpolated
    expressions. *)
Inductive part : Type :=
| Lit (s : jsstring)
| Interp (v : value).

Inductive node : Type :=
| View (key : option jsstring) (styles : list style) (children : list node)
| Text (styles : list style) (content : list part)
| Ionicons (name : option jsstring) (size : Z) (color : option jsstring)
| TouchableOpacity (key : option jsstring) (styles : list style)
    (onPress : action) (disabled : bool) (children : list node)
| ActivityIndicator
| ScrollView (children : list node)
| Modal (visible : bool) (children : list node)
| TextInput (text : jsstring)         (* value; onChangeText = setCheckInNotes *)
| SafeAreaView (children : list node).

(** [cond && <element/>]: a false condition renders nothing. *)
Definition when (cond : bool) (element : node) : list node :=
  if cond then [element] else [].

(** [challengeTemplates.find((t) => t.type === challenge_type)] *)
Definition find_template (challenge_type : jsstring) : option Template.t :=
  List.find (fun t => jsstring_eqb (Template.type t) challenge_type)
            challengeTemplates.

Definition renderBadge (badge : jsstring) : node :=
  let badgeData := badgeInfo !! badge in
  View (Some badge) [Static "badge"] [
    Ionicons (opt_chain badgeData Badge.icon) 16 (opt_chain badgeData Badge.color);
    Text [Static "badgeText"] [Interp (of_option (opt_chain badgeData Badge.label))]
  ].

Definition renderChallenge (env : Env) (challenge : Challenge) : node :=
  let template := find_template (challenge_type challenge) in
  let progress := progress challenge in
  let daysLeft := daysLeft env challenge in
  View (Some (id challenge)) [Static "challengeCard"] [
    View None [Static "challengeIcon";
               BackgroundColor
                 (VString (add_string (opt_chain template Template.color) (js "20")))] [
      Ionicons (Some (or_else (opt_chain template Template.icon) (js "star"))) 32
               (opt_chain template Template.color)
    ];
    View None [Static "challengeContent"] (
      [ Text [Static "challengeTitle"] [Interp (VString (title challenge))];
        Text [Static "challengeDescription"] [Interp (VString (description challenge))];
        View None [Static "progressContainer"] [
          View None [Static "progressBar"] [
            View None [Static "progressFill"; Width progress;
                       BackgroundColor (of_option (opt_chain template Template.color))] []
          ];
          Text [Static "progressText"] [
            Interp (VNumber (completed_days challenge)); Lit (js "/");
            Interp (VNumber (duration_days challenge)); Lit (js " days")
          ]
        ]
      ]
      ++ when (0 <? Z.of_nat (length (badges challenge)))
           (View None [Static "badgesContainer"] (map renderBadge (badges challenge)))
      ++ when (negb (is_completed challenge))
           (TouchableOpacity None
              [Static "checkInButton";
               BackgroundColor (of_option (opt_chain template Template.color))]
              (OpenCheckIn challenge) false
              [Text [Static "checkInButtonText"] [Lit (js "Check In Today")]])
      ++ when (is_completed challenge)
           (View None [Static "completedBanner"] [
              Ionicons (Some (js "checkmark-circle")) 20 (Some (js "#10B981"));
              Text [Static "completedText"]
                   [Lit (js "Challenge Completed! " ++ [55356; 57225]%N)]
              (* "Challenge Completed! " followed by U+1F389 *)
            ])
    )
  ].

(** ** Component state *)

(** The [useState] cells of [Challenges]. *)
Record State := {
  challenges : list Challenge;
  isLoading : bool;
  modalVisible : bool;
  checkInModal : bool;
  selectedChallenge : option Challenge;
  checkInNotes : jsstring;
  isSubmitting : bool
}.

Definition renderTemplate (isSubmitting : bool) (template : Template.t) : node :=
  TouchableOpacity (Some (Template.type template)) [Static "templateCard"]
    (StartChallenge template) isSubmitting [
      View None [Static "templateIcon";
                 BackgroundColor (VString (Template.color template ++ js "20"))] [
        Ionicons (Some (Template.icon template)) 32 (Some (Template.color template))
      ];
      View None [Static "templateContent"] [
        Text [Static "templateTitle"] [Interp (VString (Template.title template))];
        Text [Static "templateDescription"]
             [Interp (VString (Template.description template))];
        Text [Static "templateDuration"]
             [Interp (VNumber (Template.duration template)); Lit (js " days")]
      ];
      Ionicons (Some (js "chevron-forward")) 24 (Some (js "#64748B"))
    ].

(** The element tree returned by the component for a given state. *)
Definition render (env : Env) (s : State) : node :=
  if isLoading s then
    View None [Static "centerContainer"] [ActivityIndicator]
  else
    SafeAreaView [
      View None [Static "header"] [
        Text [Static "headerTitle"] [Lit (js "Challenges")];
        TouchableOpacity None [] OpenSelection false [
          Ionicons (Some (js "add-circle")) 32 (Some (js "#6366F1"))
        ]
      ];
      ScrollView (
        if (length (challenges s) =? 0)%nat then
          [ View None [Static "emptyContainer"] [
              Ionicons (Some (js "trophy-outline")) 64 (Some (js "#475569"));
              Text [Static "emptyText"] [Lit (js "No active challenges")];
              Text [Static "emptySubtext"] [Lit (js "Start your first challenge!")];
              TouchableOpacity None [Static "startButton"] OpenSelection false [
                Text [Static "startButtonText"] [Lit (js "Browse Challenges")]
              ]
            ] ]
        else map (renderChallenge env) (challenges s)
      );
      Modal (modalVisible s) [
        View None [Static "modalOverlay"] [
          View None [Static "modalContent"] [
            View None [Static "modalHeader"] [
              Text [Static "modalTitle"] [Lit (js "Choose a Challenge")];
              TouchableOpacity None [] CloseSelection false [
                Ionicons (Some (js "close")) 28 (Some (js "#94A3B8"))
              ]
            ];
            ScrollView (map (renderTemplate (isSubmitting s)) challengeTemplates)
          ]
        ]
      ];
      Modal (checkInModal s) [
        View None [Static "modalOverlay"] [
          View None [Static "modalContent"] [
            View None [Static "modalHeader"] [
              Text [Static "modalTitle"] [Lit (js "Daily Check-In")];
              TouchableOpacity None [] CloseCheckIn false [
                Ionicons (Some (js "close")) 28 (Some (js "#94A3B8"))
              ]
            ];
            Text [Static "checkInLabel"] [Lit (js "How did today go? (Optional)")];
            TextInput (checkInNotes s);
            TouchableOpacity None [Static "submitButton"] HandleCheckIn (isSubmitting s) [
              if isSubmitting s then ActivityIndicator
              else Text [Static "submitButtonText"]
                        [Lit (js "Complete Today's Challenge")]
            ]
          ]
        ]
      ]
    ].

(** The touchable controls mounted by a tree, each with its handler and
    its [disabled] flag.  A [Modal] that is not visible mounts nothing. *)
Fixpoint controls (n : node) : list (action * bool) :=
  match n with
  | View _ _ children | ScrollView children | SafeAreaView children =>
      flat_map controls children
  | TouchableOpacity _ _ onPress disabled children =>
      (onPress, disabled) :: flat_map controls children
  | Modal visible children =>
      if visible then flat_map controls children else []
  | Text _ _ | Ionicons _ _ _ | ActivityIndicator | TextInput _ => []
  end.

(** The text inputs mounted by a tree. *)
Fixpoint inputs (n : node) : list jsstring :=
  match n with
  | View _ _ children | ScrollView children | SafeAreaView children
  | TouchableOpacity _ _ _ _ children =>
      flat_map inputs children
  | Modal visible children =>
      if visible then flat_map inputs children else []
  | TextInput text => [text]
  | Text _ _ | Ionicons _ _ _ | ActivityIndicator => []
  end.

(** A press on a control reaches its handler unless the control is
    disabled. *)
Definition pressable (n : node) (a : action) : bool :=
  bool_decide ((a, false) ∈ controls n).

(** ** Requests, alerts and the world around the component *)

(** Requests sent to the backend, with their JSON bodies as transmitted.
    Every request also carries the bearer token of the session, which
    plays no part in what follows and is left out. *)
Inductive request : Type :=
| GetActive                                    (* GET /api/challenges/active *)
| PostCreate (body : list (jsstring * json))   (* POST /api/challenges/create *)
| PostCheckIn (body : list (jsstring * json)). (* POST /api/challenges/checkin *)

#[global] Instance is_GetActive_decision (r : request) : Decision (r = GetActive).
Proof. destruct r; [left; reflexivity|right; discriminate|right; discriminate]. Defined.

(** The fields of a successful check-in response the handler reads. *)
Record CheckInResult := {
  ai_feedback : jsstring;
  res_completed_days : number;
  res_badges : list jsstring
}.

(** Answers with a success status.  [CheckedInWithoutBadges] is an answer
    to the check-in whose body, or whose [badges] member, is [null] or
    [undefined]. *)
Inductive response : Type :=
| ActiveChallenges (data : list Challenge)
| Created
| CheckedIn (data : CheckInResult)
| CheckedInWithoutBadges.

(** What a [catch] branch receives; [detail] is
    [error.response?.data?.detail], a value of any type, [undefined] when
    the error has no response or the response carries no detail. *)
Record AxiosError := { detail : value }.

(** A [TypeError] thrown inside a handler: it has no [response]. *)
Definition TypeError : AxiosError := {| detail := VUndefined |}.

Inductive outcome : Type :=
| Fulfilled (r : response)
| Rejected (error : AxiosError).

(** A call of [Alert.alert]. *)
Record alert := {
  alert_title : jsstring;
  alert_message : list part;
  alert_buttons : list jsstring
}.

(** A call of [console.error]. *)
Record log := { log_message : jsstring; log_error : AxiosError }.

Record World := {
  ui : State;
  inflight : list request;     (* requests awaiting their response *)
  alerts : list alert;         (* alerts shown so far, oldest first *)
  console : list log           (* console output so far, oldest first *)
}.

Definition with_ui (f : State -> State) (w : World) : World :=
  {| ui := f (ui w); inflight := inflight w; alerts := alerts w;
     console := console w |}.

Definition setChallenges (v : list Challenge) : World -> World :=
  with_ui (fun s =>
    {| challenges := v; isLoading := isLoading s; modalVisible := modalVisible s;
       checkInModal := checkInModal s; selectedChallenge := selectedChallenge s;
       checkInNotes := checkInNotes s; isSubmitting := isSubmitting s |}).

Definition setIsLoading (v : bool) : World -> World :=
  with_ui (fun s =>
    {| challenges := challenges s; isLoading := v; modalVisible := modalVisible s;
       checkInModal := checkInModal s; selectedChallenge := selectedChallenge s;
       checkInNotes := checkInNotes s; isSubmitting := isSubmitting s |}).

Definition setModalVisible (v : bool) : World -> World :=
  with_ui (fun s =>
    {| challenges := challenges s; isLoading := isLoading s; modalVisible := v;
       checkInModal := checkInModal s; selectedChallenge := selectedChallenge s;
       checkInNotes := checkInNotes s; isSubmitting := isSubmitting s |}).

Definition setCheckInModal (v : bool) : World -> World :=
  with_ui (fun s =>
    {| challenges := challenges s; isLoading := isLoading s;
       modalVisible := modalVisible s; checkInModal := v;
       selectedChallenge := selectedChallenge s;
       checkInNotes := checkInNotes s; isSubmitting := isSubmitting s |}).

Definition setSelectedChallenge (v : option Challenge) : World -> World :=
  with_ui (fun s =>
    {| challenges := challenges s; isLoading := isLoading s;
       modalVisible := modalVisible s; checkInModal := checkInModal s;
       selectedChallenge := v;
       checkInNotes := checkInNotes s; isSubmitting := isSubmitting s |}).

Definition setCheckInNotes (v : jsstring) : World -> World :=
  with_ui (fun s =>
    {| challenges := challenges s; isLoading := isLoading s;
       modalVisible := modalVisible s; checkInModal := checkInModal s;
       selectedChallenge := selectedChallenge s;
       checkInNotes := v; isSubmitting := isSubmitting s |}).

Definition setIsSubmitting (v : bool) : World -> World :=
  with_ui (fun s =>
    {| challenges := challenges s; isLoading := isLoading s;
       modalVisible := modalVisible s; checkInModal := checkInModal s;
       selectedChallenge := selectedChallenge s;
       checkInNotes := checkInNotes s; isSubmitting := v |}).

(** Issue a request; the caller is suspended until it settles. *)
Definition send (r : request) (w : World) : World :=
  {| ui := ui w; inflight := inflight w ++ [r]; alerts := alerts w;
     console := console w |}.

Definition Alert_alert (title : jsstring) (message : list part)
    (buttons : list jsstring) (w : World) : World :=
  {| ui := ui w; inflight := inflight w;
     alerts := alerts w ++ [{| alert_title := title; alert_message := message;
                               alert_buttons := buttons |}];
     console := console w |}.

Definition console_error (message : jsstring) (error : AxiosError) (w : World) : World :=
  {| ui := ui w; inflight := inflight w; alerts := alerts w;
     console := console w ++ [{| log_message := message; log_error := error |}] |}.

(** ** The handlers

    Each [async] handler is split at its [await]: the part that runs when
    it is called, and the continuations that run when the awaited request
    is fulfilled or rejected; the [finally] block closes both. *)

Definition loadChallenges (w : World) : World := send GetActive w.

Definition loadChallenges_fulfilled (data : list Challenge) (w : World) : World :=
  let w := setChallenges data w in
  setIsLoading false w.

Definition loadChallenges_rejected (error : AxiosError) (w : World) : World :=
  let w := console_error (js "Error loading challenges:") error w in
  setIsLoading false w.

Definition create_body (template : Template.t) : object := [
  (js "challenge_type", VString (Template.type template));
  (js "title", VString (Template.title template));
  (js "description", VString (Template.description template));
  (js "duration_days", VNumber (Template.duration template))
].

Definition startChallenge (template : Template.t) (w : World) : World :=
  let w := setIsSubmitting true w in
  send (PostCreate (stringify (create_body template))) w.

Definition startChallenge_fulfilled (w : World) : World :=
  let w := setModalVisible false w in
  let w := loadChallenges w in
  let w := Alert_alert (js "Success") [Lit (js "Challenge started! Good luck!")] [] w in
  setIsSubmitting false w.

Definition startChallenge_rejected (error : AxiosError) (w : World) : World :=
  let w := Alert_alert (js "Error")
             [Interp (or_value (detail error) (VString (js "Failed to start challenge")))]
             [] w in
  setIsSubmitting false w.

Definition checkin_body (selected : Challenge) (notes : jsstring) : object := [
  (js "challenge_id", VString (id selected));
  (js "notes", of_option (or_undefined (trim notes)))
].

Definition handleCheckIn (w : World) : World :=
  match selectedChallenge (ui w) with
  | None => w
  | Some selected =>
      let w := setIsSubmitting true w in
      send (PostCheckIn (stringify (checkin_body selected (checkInNotes (ui w))))) w
  end.

(** [response.data.badges.length > 0 ? '\n🏆 New badges earned!' : ''] *)
Definition newBadgesText (data : CheckInResult) : jsstring :=
  if (0 <? Z.of_nat (length (res_badges data)))
  then [10; 55356; 57286]%N ++ js " New badges earned!"
  else [].

(** The [catch] branch of [handleCheckIn]. *)
Definition handleCheckIn_catch (error : AxiosError) (w : World) : World :=
  Alert_alert (js "Error")
    [Interp (or_value (detail error) (VString (js "Failed to check in")))]
    [] w.

(** The continuation after the [await].  It is still inside the [try]
    block: with [data = None], an answer without [badges], evaluating the
    message of the alert throws a [TypeError] after the three statements
    before it have run, and the [catch] branch takes over. *)
Definition handleCheckIn_fulfilled (data : option CheckInResult) (w : World) : World :=
  let w := setCheckInModal false w in
  let w := setCheckInNotes [] w in
  let w := loadChallenges w in
  let w := match data with
           | Some data =>
               Alert_alert (js "Great Job! " ++ [55356; 57225]%N)
                 [ Interp (VString (ai_feedback data));
                   Lit ([10; 10]%N ++ js "Completed: ");
                   Interp (VNumber (res_completed_days data));
                   Lit (js " days");
                   Interp (VString (newBadgesText data)) ]
                 [js "Awesome!"] w
           | None => handleCheckIn_catch TypeError w
           end in
  setIsSubmitting false w.

Definition handleCheckIn_rejected (error : AxiosError) (w : World) : World :=
  let w := handleCheckIn_catch error w in
  setIsSubmitting false w.

(** ** The transition system

    The component is driven by three kinds of events: a press on a mounted,
    enabled control; an edit of the mounted notes input; and the settling
    of an in-flight request.  Each event runs its handler to the next
    suspension point. *)

Inductive event : Type :=
| Press (a : action)
| ChangeText (text : jsstring)
| Settle (i : nat) (o : outcome).

Definition press (a : action) (w : World) : World :=
  match a with
  | OpenSelection => setModalVisible true w
  | CloseSelection => setModalVisible false w
  | StartChallenge template => startChallenge template w
  | OpenCheckIn challenge =>
      let w := setSelectedChallenge (Some challenge) w in
      setCheckInModal true w
  | CloseCheckIn => setCheckInModal false w
  | HandleCheckIn => handleCheckIn w
  end.

(** Resume the handler suspended on request [r] with outcome [o]. *)
Definition resume (r : request) (o : outcome) (w : World) : option World :=
  match r, o with
  | GetActive, Fulfilled (ActiveChallenges data) => Some (loadChallenges_fulfilled data w)
  | GetActive, Rejected error => Some (loadChallenges_rejected error w)
  | PostCreate _, Fulfilled Created => Some (startChallenge_fulfilled w)
  | PostCreate _, Rejected error => Some (startChallenge_rejected error w)
  | PostCheckIn _, Fulfilled (CheckedIn data) =>
      Some (handleCheckIn_fulfilled (Some data) w)
  | PostCheckIn _, Fulfilled CheckedInWithoutBadges =>
      Some (handleCheckIn_fulfilled None w)
  | PostCheckIn _, Rejected error => Some (handleCheckIn_rejected error w)
  | _, _ => None
  end.

Definition settled (i : nat) (w : World) : World :=
  {| ui := ui w; inflight := delete i (inflight w); alerts := alerts w;
     console := console w |}.

Definition step (env : Env) (w : World) (ev : event) : option World :=
  match ev with
  | Press a =>
      if pressable (render env (ui w)) a then Some (press a w) else None
  | ChangeText text =>
      match inputs (render env (ui w)) with
      | [] => None
      | _ :: _ => Some (setCheckInNotes text w)
      end
  | Settle i o =>
      match inflight w !! i with
      | Some r => resume r o (settled i w)
      | None => None
      end
  end.

(** The [useState] initial values. *)
Definition initialState : State := {|
  challenges := [];
  isLoading := true;
  modalVisible := false;
  checkInModal := false;
  selectedChallenge := None;
  checkInNotes := [];
  isSubmitting := false
|}.

(** Mounting runs the effect, which calls [loadChallenges]. *)
Definition mount : World :=
  loadChallenges {| ui := initialState; inflight := []; alerts := []; console := [] |}.

Inductive reachable : World -> Prop :=
| reachable_mount : reachable mount
| reachable_step env w ev w' :
    reachable w -> step env w ev = Some w' -> reachable w'.

(** A request that changes backend state. *)
Definition mutating (r : request) : bool :=
  match r with
  | GetActive => false
  | PostCreate _ | PostCheckIn _ => true
  end.

Definition mutating_inflight (w : World) : nat :=
  length (filter (fun r => mutating r = true) (inflight w)).

(** All [Width] entries of a tree, in document order. *)
Fixpoint widths (n : node) : list number :=
  let of_styles := flat_map (fun s => match s with Width p => [p] | _ => [] end) in
  match n with
  | View _ styles children => of_styles styles ++ flat_map widths children
  | TouchableOpacity _ styles _ _ children =>
      of_styles styles ++ flat_map widths children
  | Text styles _ => of_styles styles
  | ScrollView children | SafeAreaView children | Modal _ children =>
      flat_map widths children
  | Ionicons _ _ _ | ActivityIndicator | TextInput _ => []
  end.

(** All nodes a tree mounts, the tree itself first. *)
Fixpoint mounted (n : node) : list node :=
  n :: match n with
       | View _ _ children | ScrollView children | SafeAreaView children
       | TouchableOpacity _ _ _ _ children =>
           flat_map mounted children
       | Modal visible children =>
           if visible then flat_map mounted children else []
       | Text _ _ | Ionicons _ _ _ | ActivityIndicator | TextInput _ => []
       end.

(** The [name] and [color] given to each icon of a tree, in document
    order. *)
Definition icons (n : node) : list (option jsstring * option jsstring) :=
  flat_map (fun m => match m with
                     | Ionicons name _ color => [(name, color)]
                     | _ => []
                     end) (mounted n).

(** The mounted nodes carrying the static style [name]. *)
Definition has_style (name : string) (n : node) : bool :=
  let named := existsb (fun s => match s with
                                 | Static n' => String.eqb n' name
                                 | _ => false
                                 end) in
  match n with
  | View _ styles _ | TouchableOpacity _ styles _ _ _ | Text styles _ => named styles
  | _ => false
  end.

Definition styled (name : string) (n : node) : list node :=
  List.filter (has_style name) (mounted n).

(** All computed [backgroundColor] entries of a tree, in document order. *)
Definition backgrounds (n : node) : list value :=
  let of_styles :=
    flat_map (fun s => match s with BackgroundColor c => [c] | _ => [] end) in
  flat_map (fun m => match m with
                     | View _ styles _ | TouchableOpacity _ styles _ _ _
                     | Text styles _ => of_styles styles
                     | _ => []
                     end) (mounted n).

(** The icon of a badge as [renderBadge] draws it. *)
Definition badge_icon (badge : jsstring) : option jsstring * option jsstring :=
  (opt_chain (badgeInfo !! badge) Badge.icon,
   opt_chain (badgeInfo !! badge) Badge.color).

(** The banner shown on a completed challenge. *)
Definition completedBanner : node :=
  View None [Static "completedBanner"] [
    Ionicons (Some (js "checkmark-circle")) 20 (Some (js "#10B981"));
    Text [Static "completedText"]
         [Lit (js "Challenge Completed! " ++ [55356; 57225]%N)]
  ].

(** The badge delta in the words of the specification: the badges of the
    post-check-in set that are not in the pre-check-in set. *)
Definition spec_badge_delta (post pre : list jsstring) : list jsstring :=
  filter (fun b => b ∉ pre) post.

(** Run a sequence of events, if each is enabled in turn. *)
Fixpoint run (env : Env) (w : World) (evs : list event) : option World :=
  match evs with
  | [] => Some w
  | ev :: rest =>
      match step env w ev with
      | Some w' => run env w' rest
      | None => None
      end
  end.

(** The number of list fetches in flight. *)
Definition loads_inflight (w : World) : nat :=
  length (filter (fun r => r = GetActive) (inflight w)).

(** The alert raised by a successful check-in. *)
Definition checkin_alert (data : CheckInResult) : alert := {|
  alert_title := js "Great Job! " ++ [55356; 57225]%N;
  alert_message := [ Interp (VString (ai_feedback data));
                     Lit ([10; 10]%N ++ js "Completed: ");
                     Interp (VNumber (res_completed_days data));
                     Lit (js " days");
                     Interp (VString (newBadgesText data)) ];
  alert_buttons := [js "Awesome!"]
|}.

(** The alert raised by a failed request, with the handler's own fallback
    message. *)
Definition error_alert (error : AxiosError) (fallback : string) : alert := {|
  alert_title := js "Error";
  alert_message := [Interp (or_value (detail error) (VString (js fallback)))];
  alert_buttons := []
|}.

(** A success answer to the check-in: with the fields the handler reads,
    or without a usable [badges] member. *)
Definition checkin_response (data : option CheckInResult) : response :=
  match data with
  | Some data => CheckedIn data
  | None => CheckedInWithoutBadges
  end.

(** The flag is set exactly while a mutating request is in flight. *)
Definition flag_tracks_requests (w : World) : Prop :=
  mutating_inflight w = if isSubmitting (ui w) then 1%nat else 0%nat.

(** Equality of numbers as a test; the two zeros are told apart. *)
Definition same_number (x y : number) : bool :=
  match x, y with
  | NaN, NaN => true
  | Infinity s, Infinity t => Bool.eqb s t
  | NegZero, NegZero => true
  | Fin p, Fin q => Qeq_bool p q
  | _, _ => false
  end.

(** ** Binary64 cross-check

    The same derivation evaluated with [SpecFloat], the reference
    implementation of IEEE 754 binary64 of the standard library, on integer
    day counts. *)

Module Binary64.

Definition prec : Z := 53.
Definition emax : Z := 1024.

Definition of_int (z : Z) : SpecFloat.spec_float :=
  SpecFloat.binary_normalize prec emax z 0 false.

(** [(completed_days / duration_days) * 100] *)
Definition progressPercent (completed_days duration_days : Z) : SpecFloat.spec_float :=
  SpecFloat.SFmul prec emax
    (SpecFloat.SFdiv prec emax (of_int completed_days) (of_int duration_days))
    (of_int 100).

(** [100 * completed_days / duration_days], the order of the specification. *)
Definition spec_progressPercent (completed_days duration_days : Z)
    : SpecFloat.spec_float :=
  SpecFloat.SFdiv prec emax
    (SpecFloat.SFmul prec emax (of_int 100) (of_int completed_days))
    (of_int duration_days).

Definition in_range (p : SpecFloat.spec_float) : bool :=
  SpecFloat.SFleb (of_int 0) p && SpecFloat.SFleb p (of_int 100).

Fixpoint ascending (l : list SpecFloat.spec_float) : bool :=
  match l with
  | p :: (q :: _) as rest => SpecFloat.SFleb p q && ascending rest
  | _ => true
  end.

(** The progress at every day count [0 .. d] of a [d]-day challenge. *)
Definition percents (d : Z) : list SpecFloat.spec_float :=
  map (fun c => progressPercent (Z.of_nat c) d) (seq 0 (S (Z.to_nat d))).

(** Within range, ascending, and exact at both ends. *)
Definition well_behaved (d : Z) : bool :=
  let ps := percents d in
  forallb in_range ps && ascending ps
  && SpecFloat.SFeqb (hd SpecFloat.S754_nan ps) (of_int 0)
  && SpecFloat.SFeqb (List.last ps SpecFloat.S754_nan) (of_int 100).

(** The value of a binary64 float as a number. *)
Definition to_number (f : SpecFloat.spec_float) : number :=
  match f with
  | SpecFloat.S754_zero s => zero s
  | SpecFloat.S754_infinity s => Infinity s
  | SpecFloat.S754_nan => NaN
  | SpecFloat.S754_finite s m e =>
      Fin (Q2Qc ((if s then -1 else 1) * inject_Z (Zpos m) * bpow e)%Q)
  end.

End Binary64.

(** The progress computed with [round64] agrees with the one computed by
    [SpecFloat] on every pair of day counts of [pairs]. *)
Definition binary64_agrees (pairs : list (Z * Z)) : bool :=
  forallb (fun '(c, d) =>
             same_number (Binary64.to_number (Binary64.progressPercent c d))
                         (progressPercent (of_Z c) (of_Z d)))
          pairs.

(** Day counts from -2 to 31 against each other, and a few at the ends of
    the exponent range. *)
Definition binary64_grid : list (Z * Z) :=
  let days := map (fun n => Z.of_nat n - 2) (seq 0 34) in
  flat_map (fun d => map (fun c => (c, d)) days) days
  ++ [(2 ^ 1023, 1); (1, 2 ^ 1023); (-1, 3 * 2 ^ 1021); (2 ^ 1020, 3);
      (1, 2 ^ 1023 + 2 ^ 1022); (- 2 ^ 1023, 1); (9007199254740991, 7)].

(** ** Sample data *)

Definition sample_env : Env :=
  {| Date_parse := fun _ => Some 0; Date_now := 43200000;
     LocalTZA := fun _ _ => 0 |}.

Definition sample_challenge (type : string) (completed duration : Z)
    (completed_flag : bool) (earned : list jsstring) : Challenge := {|
  id := js "c1";
  challenge_type := js type;
  title := js "3-Day Hydration Hustle";
  description := js "Drink 8 glasses of water daily";
  duration_days := of_Z duration;
  start_date := js "2024-01-01T00:00:00";
  end_date := js "2024-01-04T00:00:00";
  completed_days := of_Z completed;
  is_active := negb completed_flag;
  is_completed := completed_flag;
  badges := earned
|}.

(** A zone on UTC until the instant [transition], one hour ahead from then
    on; the local hour starting at [transition] is skipped and read with
    the offset before the transition. *)
Definition spring_forward (transition : Z) (t : Z) (isUTC : bool) : Z :=
  if isUTC then (if t <? transition then 0 else 3600000)
  else (if t <? transition + 3600000 then 0 else 3600000).

(** A clock in a zone whose offset changes at 02:00 on the second day
    after the epoch, with every end date parsed as noon of the first day. *)
Definition dst_env (now : Z) : Env :=
  {| Date_parse := fun _ => Some 43200000; Date_now := now;
     LocalTZA := spring_forward 93600000 |}.

(** A world past its first load, holding [challenge]. *)
Definition loaded (challenge : Challenge) : World := {|
  ui := {| challenges := [challenge]; isLoading := false; modalVisible := false;
           checkInModal := false; selectedChallenge := None;
           checkInNotes := []; isSubmitting := false |};
  inflight := []; alerts := []; console := []
|}.

(** The same world with the check-in modal open on [challenge] and
    [notes] typed in. *)
Definition checking_in (challenge : Challenge) (notes : jsstring) : World :=
  setCheckInNotes notes (press (OpenCheckIn challenge) (loaded challenge)).

(** The alert raised by a successful creation. *)
Definition success_alert : alert := {|
  alert_title := js "Success";
  alert_message := [Lit (js "Challenge started! Good luck!")];
  alert_buttons := []
|}.

(** A selection the check-in workflow can act on: an open check-in modal
    has a selected challenge, and the selected snapshot is not completed. *)
Definition selection_sound (s : State) : Prop :=
  (checkInModal s = true -> is_Some (selectedChallenge s))
  /\ (forall c, selectedChallenge s = Some c -> is_completed c = false).

(** A request the handlers of the screen can have built. *)
Definition issued_by_screen (r : request) : Prop :=
  match r with
  | GetActive => True
  | PostCreate body =>
      exists t, t ∈ challengeTemplates /\ body = stringify (create_body t)
  | PostCheckIn body =>
      exists selected notes,
        is_completed selected = false
        /\ body = stringify (checkin_body selected notes)
  end.

(** A string made of white space only. *)
Definition all_white (s : jsstring) : Prop := Forall (fun c => is_white c = true) s.

(** The second template of the catalog. *)
Definition no_sugar : Template.t :=
  {| Template.type := js "no_sugar";
     Template.title := js "No Sugar Week";
     Template.description := js "Avoid added sugars for 7 days";
     Template.duration := of_Z 7;
     Template.icon := js "close-circle";
     Template.color := js "#EF4444" |}.

(** A loaded world with the selection modal open. *)
Definition selecting (challenge : Challenge) : World :=
  press OpenSelection (loaded challenge).

(** * Properties *)

(** ** Rounding to binary64 *)

Section Rounding.

#[local] Open Scope Q_scope.

Lemma bpow_pos (e : Z) : 0 < bpow e.
Proof. apply Qpower_0_lt. reflexivity. Qed.

Lemma bpow_add (a b : Z) : bpow (a + b) == bpow a * bpow b.
Proof. apply Qpower_plus. discriminate. Qed.

Lemma bpow_le (a b : Z) : (a <= b)%Z -> bpow a <= bpow b.
Proof. intros. apply Qpower_le_compat_l; [assumption|]. discriminate. Qed.

Lemma bpow_Z (j : Z) : (0 <= j)%Z -> bpow j == inject_Z (2 ^ j).
Proof. intros. unfold bpow. rewrite Zpower_Qpower by assumption. reflexivity. Qed.

Lemma bpow_split (a b : Z) : bpow a == bpow (a - b) * bpow b.
Proof. rewrite <- bpow_add. replace (a - b + b)%Z with a by lia. reflexivity. Qed.

Lemma rne_bounds (s : Q) : (Qfloor s <= rne s <= Qfloor s + 1)%Z.
Proof.
  unfold rne.
  destruct (s - inject_Z (Qfloor s) ?= 1 # 2); [destruct (Z.even _)| |]; lia.
Qed.

Lemma rne_Z (n : Z) : rne (inject_Z n) = n.
Proof.
  unfold rne. rewrite Qfloor_Z.
  destruct (Qcompare_spec (inject_Z n - inject_Z n) (1 # 2)) as [H|H|H];
    [exfalso; lra|reflexivity|exfalso; lra].
Qed.

(** Rounding to the nearest integer preserves order. *)
Lemma rne_mono (s t : Q) : s <= t -> (rne s <= rne t)%Z.
Proof.
  intros Hst. pose proof (Qfloor_resp_le _ _ Hst) as Hf.
  pose proof (rne_bounds s) as Hs. pose proof (rne_bounds t) as Ht.
  destruct (Z.eq_dec (Qfloor s) (Qfloor t)) as [E|N]; [|lia].
  unfold rne in *. rewrite <- E in *.
  destruct (Qcompare_spec (s - inject_Z (Qfloor s)) (1 # 2)) as [Cs|Cs|Cs];
    destruct (Qcompare_spec (t - inject_Z (Qfloor s)) (1 # 2)) as [Ct|Ct|Ct];
    try (destruct (Z.even (Qfloor s)); lia); try lia; exfalso; clear - Hst Cs Ct; lra.
Qed.

Lemma rne_error (s : Q) : Qabs (inject_Z (rne s) - s) <= 1 # 2.
Proof.
  pose proof (Qfloor_le s) as Hlo. pose proof (Qlt_floor s) as Hhi.
  rewrite inject_Z_plus in Hhi. change (inject_Z 1) with 1 in Hhi.
  unfold rne. apply Qabs_Qle_condition.
  destruct (Qcompare_spec (s - inject_Z (Qfloor s)) (1 # 2)) as [C|C|C].
  - destruct (Z.even (Qfloor s)); rewrite ?inject_Z_plus;
      change (inject_Z 1) with 1; split; lra.
  - split; lra.
  - rewrite inject_Z_plus. change (inject_Z 1) with 1. split; lra.
Qed.

Lemma rne_le_Z (s : Q) (n : Z) : s <= inject_Z n -> (rne s <= n)%Z.
Proof. intros H. rewrite <- (rne_Z n). apply rne_mono, H. Qed.

Lemma rne_ge_Z (s : Q) (n : Z) : inject_Z n <= s -> (n <= rne s)%Z.
Proof. intros H. rewrite <- (rne_Z n). apply rne_mono, H. Qed.

Lemma log2_bounds (n : Z) :
  (0 < n)%Z ->
  bpow (Z.log2 n) <= inject_Z n /\ inject_Z n < bpow (Z.log2 n + 1).
Proof.
  intros Hn. destruct (Z.log2_spec n Hn) as [Hlo Hhi].
  pose proof (Z.log2_nonneg n) as Hl.
  rewrite !bpow_Z by lia. rewrite <- Zle_Qle, <- Zlt_Qlt.
  replace (Z.log2 n + 1)%Z with (Z.succ (Z.log2 n)) by lia. lia.
Qed.

(** [mag a] is the magnitude of a positive [a]. *)
Lemma mag_spec (a : Q) : 0 < a -> bpow (mag a - 1) <= a /\ a < bpow (mag a).
Proof.
  intros Ha. unfold mag.
  destruct a as [n d]. cbn [Qnum Qden].
  assert (Hn : (0 < n)%Z).
  { unfold Qlt in Ha. cbn in Ha. lia. }
  destruct (log2_bounds n Hn) as [Hn1 Hn2].
  destruct (log2_bounds (Zpos d) eq_refl) as [Hd1 Hd2].
  set (ln := Z.log2 n) in *. set (ld := Z.log2 (Zpos d)) in *.
  assert (Hnd : (n # d) * inject_Z (Zpos d) == inject_Z n).
  { rewrite (Qmake_Qdiv n d). field. discriminate. }
  assert (Hdpos : 0 < inject_Z (Zpos d)) by reflexivity.
  set (A := n # d) in *. set (D := inject_Z (Zpos d)) in *. set (N := inject_Z n) in *.
  pose proof (bpow_pos ld) as Hp1. pose proof (bpow_pos (ln - ld)) as Hp2.
  pose proof (bpow_pos (ln - ld - 1)) as Hp3.
  pose proof (bpow_split (ln + 1) ld) as E1.
  replace (ln + 1 - ld)%Z with (ln - ld + 1)%Z in E1 by lia.
  pose proof (bpow_split ln (ld + 1)) as E2.
  replace (ln - (ld + 1))%Z with (ln - ld - 1)%Z in E2 by lia.
  pose proof (bpow_pos (ln - ld + 1)) as Hp4.
  assert (Hup : A < bpow (ln - ld + 1)).
  { apply (Qmult_lt_r _ _ D Hdpos). rewrite Hnd.
    apply Qlt_le_trans with (1 := Hn2). rewrite E1.
    apply Qmult_le_l; assumption. }
  assert (Hdn : bpow (ln - ld - 1) < A).
  { apply (Qmult_lt_r _ _ D Hdpos). rewrite Hnd.
    apply Qlt_le_trans with (2 := Hn1). rewrite E2.
    apply Qmult_lt_l; assumption. }
  destruct (Qle_bool (bpow (ln - ld)) A) eqn:Hb.
  - apply Qle_bool_iff in Hb.
    replace (ln - ld + 1 - 1)%Z with (ln - ld)%Z by lia. split; assumption.
  - split; [apply Qlt_le_weak, Hdn|].
    apply Qnot_le_lt. intros H. apply Qle_bool_iff in H. congruence.
Qed.

Lemma mag_mono (a b : Q) : 0 < a -> a <= b -> (mag a <= mag b)%Z.
Proof.
  intros Ha Hab. assert (Hb : 0 < b) by lra.
  destruct (mag_spec a Ha) as [Ha1 Ha2]. destruct (mag_spec b Hb) as [Hb1 Hb2].
  destruct (Z_le_gt_dec (mag a) (mag b)) as [H|H]; [exact H|].
  exfalso. assert (Hp : bpow (mag b) <= bpow (mag a - 1)) by (apply bpow_le; lia).
  lra.
Qed.

Lemma mag_le (a : Q) (k : Z) : 0 < a -> a < bpow k -> (mag a <= k)%Z.
Proof.
  intros Ha Hk. destruct (mag_spec a Ha) as [Hlo _].
  destruct (Z_le_gt_dec (mag a) k) as [H|H]; [exact H|].
  exfalso. assert (Hp : bpow k <= bpow (mag a - 1)) by (apply bpow_le; lia).
  lra.
Qed.

Lemma scaled_le (a b : Q) (e : Z) : a <= b -> a / bpow e <= b / bpow e.
Proof.
  intros H. pose proof (bpow_pos e) as Hp.
  unfold Qdiv. apply Qmult_le_compat_r; [exact H|].
  apply Qlt_le_weak, Qinv_lt_0_compat, Hp.
Qed.

Lemma scaled_bpow (k e : Z) : bpow k / bpow e == bpow (k - e).
Proof.
  pose proof (bpow_pos e) as Hp. rewrite (bpow_split k e). field. lra.
Qed.

(** Rounding to binary64 preserves the order of positive values: within a
    binade by [rne_mono], across binades because the power of two between
    the two values is representable. *)
Lemma round_pos_mono (a b : Q) : 0 < a -> a <= b -> round_pos a <= round_pos b.
Proof.
  intros Ha Hab. assert (Hb : 0 < b) by lra.
  pose proof (mag_mono a b Ha Hab) as Hk.
  destruct (mag_spec a Ha) as [_ Ha2]. destruct (mag_spec b Hb) as [Hb1 _].
  unfold round_pos.
  set (ka := mag a) in *. set (kb := mag b) in *. clearbody ka kb.
  assert (He : (fexp ka <= fexp kb)%Z) by (unfold fexp; lia).
  destruct (Z.eq_dec (fexp ka) (fexp kb)) as [E|N].
  - rewrite E. pose proof (bpow_pos (fexp kb)) as Hp.
    apply Qmult_le_compat_r; [|lra].
    rewrite <- Zle_Qle. apply rne_mono, scaled_le, Hab.
  - assert (Hlt : (fexp ka < fexp kb)%Z) by lia.
    assert (Hkk : (ka < kb)%Z).
    { destruct (Z_lt_le_dec ka kb) as [H|H]; [exact H|].
      assert (E' : ka = kb) by lia. rewrite E' in Hlt. lia. }
    assert (Heb : fexp kb = (kb - prec)%Z)
      by (unfold fexp, emin, prec, emax in *; lia).
    set (j := Z.max (ka - fexp ka) 0).
    assert (Hj : (0 <= j)%Z) by (unfold j; lia).
    assert (Hp1 : (0 <= prec - 1)%Z) by (unfold prec; lia).
    assert (Hra : (rne (a / bpow (fexp ka)) <= 2 ^ j)%Z).
    { apply rne_le_Z. rewrite <- (bpow_Z j Hj).
      apply Qle_trans with (bpow (ka - fexp ka)).
      - rewrite <- scaled_bpow. apply scaled_le. lra.
      - apply bpow_le. unfold j. lia. }
    assert (Hrb : (2 ^ (prec - 1) <= rne (b / bpow (fexp kb)))%Z).
    { apply rne_ge_Z. rewrite <- (bpow_Z (prec - 1) Hp1).
      replace (prec - 1)%Z with (kb - 1 - fexp kb)%Z by lia.
      rewrite <- scaled_bpow. apply scaled_le, Hb1. }
    pose proof (bpow_pos (fexp ka)) as Hpa. pose proof (bpow_pos (fexp kb)) as Hpb.
    apply Qle_trans with (bpow (j + fexp ka)).
    + rewrite (bpow_add j (fexp ka)), (bpow_Z j Hj).
      apply Qmult_le_compat_r; [|lra]. rewrite <- Zle_Qle. exact Hra.
    + apply Qle_trans with (bpow (prec - 1 + fexp kb)).
      * apply bpow_le. unfold j, fexp, prec, emin, emax in *. lia.
      * rewrite (bpow_add (prec - 1) (fexp kb)), (bpow_Z (prec - 1) Hp1).
        apply Qmult_le_compat_r; [|lra]. rewrite <- Zle_Qle. exact Hrb.
Qed.

Lemma round_pos_nonneg (a : Q) : 0 <= a -> 0 <= round_pos a.
Proof.
  intros Ha. unfold round_pos. pose proof (bpow_pos (fexp (mag a))) as Hp.
  apply Qmult_le_0_compat; [|lra].
  change 0 with (inject_Z 0). rewrite <- Zle_Qle. apply rne_ge_Z.
  change (inject_Z 0) with 0. apply Qle_shift_div_l; [exact Hp|lra].
Qed.

(** Rounding moves a value by at most half a unit in its last place. *)
Lemma round_pos_error (a : Q) :
  Qabs (round_pos a - a) <= bpow (fexp (mag a) - 1).
Proof.
  unfold round_pos. set (e := fexp (mag a)).
  pose proof (bpow_pos e) as Hp. pose proof (rne_error (a / bpow e)) as Herr.
  assert (E : inject_Z (rne (a / bpow e)) * bpow e - a
              == (inject_Z (rne (a / bpow e)) - a / bpow e) * bpow e)
    by (field; lra).
  rewrite E, Qabs_Qmult, (Qabs_pos (bpow e)) by lra.
  assert (E2 : bpow (e - 1) == (1 # 2) * bpow e).
  { replace (e - 1)%Z with (-1 + e)%Z by lia. rewrite bpow_add. reflexivity. }
  rewrite E2. apply Qmult_le_compat_r; [exact Herr|lra].
Qed.

End Rounding.

(** ** Progress percent *)

Section Progress.

#[local] Open Scope Qc_scope.

Lemma is_zero_false (q : Qc) : q <> 0 -> is_zero q = false.
Proof.
  intros Hq. unfold is_zero.
  destruct (Qc_eq_dec q (Qc_of_Z 0)) as [E|]; [|reflexivity].
  exfalso; apply Hq; exact E.
Qed.

Lemma is_zero_true (q : Qc) : q = 0 -> is_zero q = true.
Proof.
  intros ->. unfold is_zero.
  destruct (Qc_eq_dec 0 (Qc_of_Z 0)) as [|N]; [reflexivity|].
  exfalso; apply N; reflexivity.
Qed.

Lemma is_zero_spec (q : Qc) : is_zero q = true -> q = 0.
Proof.
  unfold is_zero. destruct (Qc_eq_dec q (Qc_of_Z 0)) as [E|]; [|discriminate].
  intros _. exact E.
Qed.

Lemma pos_nonzero (d : Qc) : 0 < d -> d <> 0.
Proof. intros H E. apply (Qclt_not_eq _ _ H). symmetry; exact E. Qed.

Lemma is_neg_false (q : Qc) : 0 <= q -> is_neg q = false.
Proof.
  intros H. unfold is_neg. change (Qc_of_Z 0) with 0.
  destruct (q ?= 0) eqn:E; try reflexivity.
  exfalso. apply Qclt_alt in E. exact (Qcle_not_lt _ _ H E).
Qed.

Lemma is_neg_true (q : Qc) : q < 0 -> is_neg q = true.
Proof.
  intros H. unfold is_neg. change (Qc_of_Z 0) with 0.
  destruct (q ?= 0) eqn:E; try reflexivity; exfalso.
  - apply Qceq_alt in E. subst q. exact (Qclt_not_eq _ _ H eq_refl).
  - apply Qcgt_alt in E. exact (Qclt_not_le _ _ H (Qclt_le_weak _ _ E)).
Qed.

Lemma leb_Fin (p q : Qc) : leb (Fin p) (Fin q) = true <-> p <= q.
Proof.
  unfold leb, value_of. rewrite Qcle_alt.
  destruct (p ?= q); split; intros; congruence.
Qed.

Lemma Qabs_nonneg_eq (a : Q) : (0 <= a)%Q -> Qabs a = a.
Proof.
  destruct a as [n d]. unfold Qle. cbn. intros H.
  f_equal. apply Z.abs_eq. lia.
Qed.

(** A non-negative value whose rounding does not overflow rounds to a
    finite number, the nearest binary64 value. *)
Lemma round64_nonneg (x : Qc) :
  0 <= x -> (round_pos x < bpow emax)%Q ->
  exists r : Qc, round64 x = Fin r /\ (r == round_pos x)%Q.
Proof.
  intros Hx Hr. unfold round64.
  rewrite (Qabs_nonneg_eq x Hx), (is_neg_false x Hx).
  destruct (Qle_bool (bpow emax) (round_pos x)) eqn:Ho.
  { exfalso. apply Qle_bool_iff in Ho. exact (Qle_not_lt _ _ Ho Hr). }
  destruct (Qeq_bool (round_pos x) 0) eqn:Hz.
  - exists 0. split; [reflexivity|].
    apply Qeq_bool_iff in Hz. rewrite Hz. reflexivity.
  - exists (Q2Qc (round_pos x)). split; [reflexivity|]. apply Qred_correct.
Qed.

Lemma round_pos_0 : (round_pos 0 == 0)%Q.
Proof. reflexivity. Qed.

Lemma round_pos_1 : (round_pos 1 == 1)%Q.
Proof. vm_compute. reflexivity. Qed.

Lemma round_pos_100 : (round_pos (Qc_of_Z 100) == 100)%Q.
Proof. vm_compute. reflexivity. Qed.

Lemma round_pos_mono_c (x y : Qc) :
  0 <= x -> x <= y -> (round_pos x <= round_pos y)%Q.
Proof.
  intros Hx Hxy. destruct (Qc_eq_dec x 0) as [->|N].
  - rewrite round_pos_0. apply round_pos_nonneg. exact (Qcle_trans _ _ _ Hx Hxy).
  - apply round_pos_mono; [|exact Hxy].
    apply Qcle_lt_or_eq in Hx. destruct Hx as [H|H]; [exact H|].
    exfalso. apply N. symmetry. exact H.
Qed.

(** The quotient of a non-negative by a positive number and the product
    of any finite number by 100 are the roundings of the exact results. *)
Lemma div_round64 (c d : Qc) :
  0 <= c -> 0 < d -> div (Fin c) (Fin d) = round64 (c / d).
Proof.
  intros Hc Hd. unfold div, zero_valued, value_of, sign.
  rewrite (is_zero_false d (pos_nonzero d Hd)).
  destruct (is_zero c) eqn:Hz; [|reflexivity].
  apply is_zero_spec in Hz. subst c.
  rewrite (is_neg_false 0 Hc), (is_neg_false d (Qclt_le_weak _ _ Hd)).
  replace (0 / d) with 0 by (field; apply pos_nonzero, Hd). reflexivity.
Qed.

Lemma mul_round64 (r : Qc) :
  mul (Fin r) (of_Z 100) = round64 (r * Qc_of_Z 100).
Proof.
  unfold mul, of_Z, zero_valued, value_of, sign.
  rewrite (is_zero_false (Qc_of_Z 100)) by discriminate.
  destruct (is_zero r) eqn:Hz; [|reflexivity].
  apply is_zero_spec in Hz. subst r. reflexivity.
Qed.

Lemma ratio_bounds (c d : Qc) : 0 <= c -> c <= d -> 0 < d -> 0 <= c / d /\ c / d <= 1.
Proof.
  intros Hc Hcd Hd. pose proof (pos_nonzero d Hd) as Hd0. split.
  - apply Qcmult_lt_0_le_reg_r with (z := d); [exact Hd|].
    replace (0 * d) with 0 by ring.
    replace (c / d * d) with c by (field; exact Hd0). exact Hc.
  - apply Qcmult_lt_0_le_reg_r with (z := d); [exact Hd|].
    replace (1 * d) with d by ring.
    replace (c / d * d) with c by (field; exact Hd0). exact Hcd.
Qed.

Lemma ratio_le (a b d : Qc) : 0 < d -> a <= b -> a / d <= b / d.
Proof.
  intros Hd Hab. pose proof (pos_nonzero d Hd) as Hd0.
  apply Qcmult_lt_0_le_reg_r with (z := d); [exact Hd|].
  replace (a / d * d) with a by (field; exact Hd0).
  replace (b / d * d) with b by (field; exact Hd0). exact Hab.
Qed.

Lemma below_emax (a : Q) (n : Z) :
  (a <= inject_Z n)%Q -> (n < 2 ^ emax)%Z -> (a < bpow emax)%Q.
Proof.
  intros Ha Hn. apply Qle_lt_trans with (1 := Ha).
  rewrite bpow_Z by (unfold emax; lia). rewrite <- Zlt_Qlt. exact Hn.
Qed.

(** The two roundings behind the progress of a challenge in range. *)
Lemma progressPercent_rounded (c d : Qc) :
  0 <= c -> c <= d -> 0 < d ->
  exists r p : Qc,
    div (Fin c) (Fin d) = Fin r
    /\ progressPercent (Fin c) (Fin d) = Fin p
    /\ (r == round_pos (c / d)%Qc)%Q
    /\ (p == round_pos (r * Qc_of_Z 100)%Qc)%Q
    /\ 0 <= r /\ r <= 1 /\ 0 <= p /\ p <= Qc_of_Z 100.
Proof.
  intros Hc Hcd Hd.
  destruct (ratio_bounds c d Hc Hcd Hd) as [Hq0 Hq1].
  pose proof (round_pos_mono_c (c / d) 1 Hq0 Hq1) as Hr1.
  rewrite round_pos_1 in Hr1.
  destruct (round64_nonneg (c / d) Hq0) as (r & Er & Hr).
  { apply (below_emax _ 1); [exact Hr1|reflexivity]. }
  assert (Hr0 : 0 <= r).
  { unfold Qcle. rewrite Hr. apply round_pos_nonneg. exact Hq0. }
  assert (Hr1' : r <= 1).
  { unfold Qcle. rewrite Hr. exact Hr1. }
  assert (Hm0 : 0 <= r * Qc_of_Z 100).
  { replace 0 with (0 * Qc_of_Z 100) by ring.
    apply Qcmult_le_compat_r; [exact Hr0|discriminate]. }
  assert (Hm1 : r * Qc_of_Z 100 <= Qc_of_Z 100).
  { replace (Qc_of_Z 100) with (1 * Qc_of_Z 100) at 2 by ring.
    apply Qcmult_le_compat_r; [exact Hr1'|discriminate]. }
  pose proof (round_pos_mono_c _ _ Hm0 Hm1) as Hp1.
  rewrite round_pos_100 in Hp1.
  destruct (round64_nonneg (r * Qc_of_Z 100) Hm0) as (p & Ep & Hp).
  { apply (below_emax _ 100); [exact Hp1|reflexivity]. }
  exists r, p. unfold progressPercent.
  rewrite (div_round64 c d Hc Hd), Er, mul_round64, Ep.
  split; [reflexivity|]. split; [reflexivity|].
  split; [exact Hr|]. split; [exact Hp|].
  split; [exact Hr0|]. split; [exact Hr1'|]. split.
  - unfold Qcle. rewrite Hp. apply round_pos_nonneg. exact Hm0.
  - unfold Qcle. rewrite Hp. exact Hp1.
Qed.

End Progress.

Section ProgressError.

#[local] Open Scope Q_scope.

Lemma round_pos_error_below (x : Qc) (k : Z) :
  0 <= x -> x < bpow k -> Qabs (round_pos x - x) <= bpow (fexp k - 1).
Proof.
  intros Hx Hk. destruct (Qc_eq_dec x 0%Qc) as [->|N].
  - apply Qlt_le_weak.
    change (Qabs (round_pos 0%Qc - 0%Qc)) with (0 * bpow (-53)).
    rewrite Qmult_0_l. exact (bpow_pos (fexp k - 1)).
  - assert (Hpos : 0 < x).
    { apply Qle_lt_or_eq in Hx. destruct Hx as [H|H]; [exact H|].
      exfalso. apply N. apply Qc_is_canon. symmetry. exact H. }
    apply Qle_trans with (1 := round_pos_error x).
    apply bpow_le. pose proof (mag_le x k Hpos Hk). unfold fexp. lia.
Qed.

(** The progress of a challenge in range is within [2 ^ -45] of
    [100 * c / d]. *)
Lemma progressPercent_error (c d r p : Qc) :
  (0 <= c)%Qc -> (c <= d)%Qc -> (0 < d)%Qc ->
  r == round_pos (c / d)%Qc ->
  p == round_pos (r * Qc_of_Z 100)%Qc ->
  (0 <= r)%Qc -> (r <= 1)%Qc ->
  Qabs (p - 100 * c / d) <= bpow (-45).
Proof.
  intros Hc Hcd Hd Hr Hp Hr0 Hr1.
  destruct (ratio_bounds c d Hc Hcd Hd) as [Hq0 Hq1].
  assert (E1 : 100 * c / d == 100 * (c / d)%Qc).
  { assert (Hd' : ~ d == 0).
    { intros E. apply (pos_nonzero d Hd). apply Qc_is_canon. exact E. }
    assert (E : (c / d)%Qc == c / d).
    { change (this (c / d)%Qc) with (Qred (c * Qred (/ d))).
      rewrite !Qred_correct. reflexivity. }
    rewrite E. field. exact Hd'. }
  assert (E2 : (r * Qc_of_Z 100)%Qc == r * 100).
  { change (this (r * Qc_of_Z 100)%Qc) with (Qred (r * Qred 100)).
    rewrite !Qred_correct. reflexivity. }
  assert (Hx1 : (c / d)%Qc < bpow 1).
  { apply Qle_lt_trans with (1 := Hq1). reflexivity. }
  assert (Hm0 : 0 <= (r * Qc_of_Z 100)%Qc).
  { rewrite E2. unfold Qcle in Hr0. change (this 0%Qc) with 0 in Hr0.
    apply Qmult_le_0_compat; [exact Hr0|discriminate]. }
  assert (Hx2 : (r * Qc_of_Z 100)%Qc < bpow 7).
  { rewrite E2. unfold Qcle in Hr1. change (this 1%Qc) with 1 in Hr1.
    apply Qle_lt_trans with (100 : Q); [|reflexivity]. lra. }
  pose proof (round_pos_error_below _ 1 Hq0 Hx1) as Herr1.
  pose proof (round_pos_error_below _ 7 Hm0 Hx2) as Herr2.
  rewrite <- Hr in Herr1. rewrite <- Hp, E2 in Herr2.
  rewrite E1.
  set (x := this (c / d)%Qc) in *. clearbody x.
  change (bpow (fexp 1 - 1)) with (bpow (-53)) in Herr1.
  change (bpow (fexp 7 - 1)) with (bpow (-47)) in Herr2.
  assert (B53 : bpow (-53) == 1 # 9007199254740992) by reflexivity.
  assert (B47 : bpow (-47) == 1 # 140737488355328) by reflexivity.
  assert (B45 : bpow (-45) == 1 # 35184372088832) by reflexivity.
  rewrite B53 in Herr1. rewrite B47 in Herr2. rewrite B45.
  apply Qabs_Qle_condition in Herr1. apply Qabs_Qle_condition in Herr2.
  apply Qabs_Qle_condition. split; lra.
Qed.

End ProgressError.

Lemma widths_badges (l : list jsstring) :
  flat_map widths (map renderBadge l) = [].
Proof. induction l as [|b l IH]; [reflexivity|]. simpl. exact IH. Qed.

(** The only computed width of a challenge card is its progress. *)
Lemma renderChallenge_width (env : Env) (challenge : Challenge) :
  widths (renderChallenge env challenge) = [progress challenge].
Proof.
  unfold renderChallenge.
  cbn [widths flat_map app]. rewrite !flat_map_app.
  destruct (0 <? Z.of_nat (length (badges challenge))),
           (is_completed challenge);
    cbn [negb when widths flat_map app]; rewrite ?widths_badges; reflexivity.
Qed.

Lemma same_number_spec (x y : number) : same_number x y = true <-> x = y.
Proof.
  split.
  - destruct x as [|s| |p], y as [|t| |q]; cbn; try discriminate; try reflexivity.
    + intros H. apply Bool.eqb_prop in H. congruence.
    + intros H. f_equal. apply Qc_is_canon, Qeq_bool_iff, H.
  - intros <-. destruct x as [|s| |p]; cbn; try reflexivity.
    + apply Bool.eqb_reflx.
    + apply Qeq_bool_iff. reflexivity.
Qed.

Lemma same_number_false (x y : number) : same_number x y = false -> x <> y.
Proof.
  intros H E. apply same_number_spec in E. congruence.
Qed.

(** The claim of C1 fails in its first part: the code divides first and
    multiplies afterwards, rounding each result to binary64.  At 7 days of
    25 the progress is 28.000000000000004, not 28; at 1 day of 3 it is
    33.33333333333333, below one third of a hundred. *)
Lemma progress_percent_counterexample :
  progress (sample_challenge "hydration" 7 25 false [])
  = Fin (Q2Qc (7881299347898369 # 281474976710656))
  /\ progress (sample_challenge "hydration" 7 25 false [])
     <> Fin (Qc_of_Z 100 * Qc_of_Z 7 / Qc_of_Z 25)%Qc
  /\ ltb (of_Z 28) (progress (sample_challenge "hydration" 7 25 false [])) = true
  /\ ltb (progress (sample_challenge "hydration" 1 3 false []))
         (Fin (Qc_of_Z 100 * Qc_of_Z 1 / Qc_of_Z 3)%Qc) = true.
Proof.
  split; [apply same_number_spec; vm_compute; reflexivity|].
  split; [apply same_number_false; vm_compute; reflexivity|].
  split; vm_compute; reflexivity.
Qed.

(** C1, amended.  For a positive duration [d] and [0 <= c <= d], the
    progress used to render a challenge with [completed_days = c] and
    [duration_days = d] is a finite number within [2 ^ -45] of
    [100 * c / d]: the quotient [c / d] rounded to binary64, times 100,
    rounded again.  It lies between 0 and 100, is exactly 0 at [c = 0] and
    exactly 100 at [c = d], and does not decrease when [c] grows within
    the range.  It is the width of the card's progress bar. *)
Theorem progress_percent_spec (challenge : Challenge) (c d : Qc) :
  completed_days challenge = Fin c ->
  duration_days challenge = Fin d ->
  (0 < d)%Qc -> (0 <= c)%Qc -> (c <= d)%Qc ->
  (exists p : Qc,
      progress challenge = Fin p
      /\ (Qabs (p - 100 * c / d) <= bpow (-45))%Q)
  /\ leb (of_Z 0) (progress challenge) = true
  /\ leb (progress challenge) (of_Z 100) = true
  /\ (c = Qc_of_Z 0 -> progress challenge = of_Z 0)
  /\ (c = d -> progress challenge = of_Z 100)
  /\ (forall c' : Qc, (c <= c')%Qc -> (c' <= d)%Qc ->
        leb (progressPercent (Fin c) (Fin d)) (progressPercent (Fin c') (Fin d)) = true)
  /\ (forall env, widths (renderChallenge env challenge) = [progress challenge]).
Proof.
  intros Hc Hd Hpos Hlo Hhi.
  pose proof (pos_nonzero d Hpos) as Hd0.
  destruct (progressPercent_rounded c d Hlo Hhi Hpos)
    as (r & p & Er & Ep & Hr & Hp & Hr0 & Hr1 & Hp0 & Hp1).
  assert (Hprog : progress challenge = Fin p).
  { unfold progress. rewrite Hc, Hd. exact Ep. }
  split; [|split; [|split; [|split; [|split; [|split]]]]].
  - exists p. split; [exact Hprog|].
    exact (progressPercent_error c d r p Hlo Hhi Hpos Hr Hp Hr0 Hr1).
  - rewrite Hprog. unfold of_Z. apply leb_Fin. exact Hp0.
  - rewrite Hprog. unfold of_Z. apply leb_Fin. exact Hp1.
  - intros ->. unfold progress, progressPercent. rewrite Hc, Hd.
    rewrite (div_round64 (Qc_of_Z 0) d Hlo Hpos).
    replace (Qc_of_Z 0 / d)%Qc with 0%Qc
      by (change (Qc_of_Z 0) with 0%Qc; field; exact Hd0).
    reflexivity.
  - intros ->. unfold progress, progressPercent. rewrite Hc, Hd.
    rewrite (div_round64 d d Hlo Hpos).
    replace (d / d)%Qc with 1%Qc by (field; exact Hd0).
    apply same_number_spec. vm_compute. reflexivity.
  - intros c' Hcc' Hc'd.
    destruct (progressPercent_rounded c' d (Qcle_trans _ _ _ Hlo Hcc') Hc'd Hpos)
      as (r' & p' & Er' & Ep' & Hr' & Hp' & Hr0' & _).
    rewrite Ep, Ep'. apply leb_Fin. unfold Qcle. rewrite Hp, Hp'.
    apply round_pos_mono_c.
    + replace 0%Qc with (0 * Qc_of_Z 100)%Qc by ring.
      apply Qcmult_le_compat_r; [exact Hr0|discriminate].
    + apply Qcmult_le_compat_r; [|discriminate].
      unfold Qcle. rewrite Hr, Hr'. apply round_pos_mono_c.
      * apply (ratio_bounds c d Hlo Hhi Hpos).
      * apply ratio_le; assumption.
  - intros env. apply renderChallenge_width.
Qed.

Lemma progress_percent_spec_witness :
  leb (progress (sample_challenge "hydration" 1 3 false [])) (of_Z 100) = true.
Proof.
  refine (proj1 (proj2 (proj2 (progress_percent_spec
                   (sample_challenge "hydration" 1 3 false [])
                   (Qc_of_Z 1) (Qc_of_Z 3) eq_refl eq_refl _ _ _)))).
  - reflexivity.
  - unfold Qcle, Qle; simpl; lia.
  - unfold Qcle, Qle; simpl; lia.
Defined.

(** ** Zero duration *)

(** The claim of C3 fails: with [duration_days = 0] and
    [completed_days = 0] the progress is [NaN], and with a positive
    [completed_days] it is [Infinity] (negative when the zero is [-0]);
    neither is 0 nor within range. *)
Lemma zero_duration_counterexample :
  progress (sample_challenge "hydration" 0 0 false []) = NaN
  /\ progress (sample_challenge "hydration" 2 0 false []) = Infinity false
  /\ progress (sample_challenge "hydration" 0 0 false []) <> of_Z 0
  /\ leb (progress (sample_challenge "hydration" 0 0 false [])) (of_Z 100) = false
  /\ leb (progress (sample_challenge "hydration" 2 0 false [])) (of_Z 100) = false
  /\ widths (renderChallenge sample_env (sample_challenge "hydration" 0 0 false []))
     = [NaN]
  /\ progressPercent (of_Z 2) NegZero = Infinity true.
Proof.
  assert (H : progress (sample_challenge "hydration" 0 0 false []) = NaN)
    by reflexivity.
  split; [exact H|]. split; [reflexivity|]. split; [rewrite H; discriminate|].
  split; [reflexivity|]. split; [reflexivity|]. split; [|reflexivity].
  rewrite renderChallenge_width, H. reflexivity.
Qed.

(** C3, amended.  With a zero [duration_days], [0] or [-0], the division
    is carried out unguarded: the progress is [NaN] when [completed_days]
    is a zero (or [NaN]) and an infinity otherwise, negative when exactly
    one of [completed_days] and the zero is negative.  It is never finite,
    hence never 0 and never within [0, 100], and it is the width given to
    the progress bar. *)
Theorem progress_zero_duration (challenge : Challenge) :
  zero_valued (duration_days challenge) = true ->
  progress challenge
  = match completed_days challenge with
    | NaN => NaN
    | Infinity s => Infinity (xorb s (sign (duration_days challenge)))
    | NegZero => NaN
    | Fin c =>
        if is_zero c then NaN
        else Infinity (xorb (is_neg c) (sign (duration_days challenge)))
    end
  /\ is_finite (progress challenge) = false
  /\ progress challenge <> of_Z 0
  /\ (leb (of_Z 0) (progress challenge) && leb (progress challenge) (of_Z 100)) = false
  /\ (forall env, widths (renderChallenge env challenge) = [progress challenge]).
Proof.
  intros Hd.
  assert (Hp : progress challenge
               = match completed_days challenge with
                 | NaN => NaN
                 | Infinity s => Infinity (xorb s (sign (duration_days challenge)))
                 | NegZero => NaN
                 | Fin c =>
                     if is_zero c then NaN
                     else Infinity (xorb (is_neg c) (sign (duration_days challenge)))
                 end).
  { unfold progress, progressPercent.
    destruct (duration_days challenge) as [|t| |d]; try discriminate Hd;
      destruct (completed_days challenge) as [|s| |c]; try reflexivity;
      cbn [div mul zero_valued sign value_of of_Z] in *;
      rewrite ?Hd; try (destruct (is_zero c)); cbn [mul];
      rewrite ?Bool.xorb_false_r; reflexivity. }
  split; [exact Hp|].
  assert (Hf : is_finite (progress challenge) = false).
  { rewrite Hp. destruct (completed_days challenge) as [|s| |c]; try reflexivity.
    destruct (is_zero c); reflexivity. }
  split; [exact Hf|]. split; [|split].
  - intros E. rewrite E in Hf. discriminate.
  - destruct (progress challenge) as [|[]| |q]; try reflexivity; discriminate.
  - intros env. apply renderChallenge_width.
Qed.

(** Every template of the catalog has a positive duration, so a challenge
    created from this screen never has a zero duration. *)
Lemma catalog_durations_positive :
  Forall (fun t => ltb (of_Z 0) (Template.duration t) = true) challengeTemplates.
Proof. repeat constructor. Qed.

Lemma progress_zero_duration_witness :
  is_finite (progress (sample_challenge "hydration" 2 0 false [])) = false.
Proof.
  exact (proj1 (proj2 (progress_zero_duration
                         (sample_challenge "hydration" 2 0 false []) eq_refl))).
Defined.

(** ** Check-in notes *)

Lemma jsstring_eqb_refl (s : jsstring) : jsstring_eqb s s = true.
Proof. unfold jsstring_eqb. apply bool_decide_eq_true. reflexivity. Qed.

Lemma or_undefined_spec (s : jsstring) :
  or_undefined s = match s with [] => None | _ :: _ => Some s end.
Proof. destruct s; reflexivity. Qed.

(** [trimStart] leaves no white space in front. *)
Lemma trimStart_head (s : jsstring) (c : code_unit) (rest : jsstring) :
  trimStart s = c :: rest -> is_white c = false.
Proof.
  induction s as [|a s IH]; simpl; [discriminate|].
  destruct (is_white a) eqn:E; [exact IH|].
  intros [= <- _]. exact E.
Qed.

(** What [trimStart] returns is a suffix of its argument. *)
Lemma trimStart_suffix (s : jsstring) : exists p, s = p ++ trimStart s.
Proof.
  induction s as [|a s [p IH]]; [exists []; reflexivity|]. simpl.
  destruct (is_white a).
  - exists (a :: p). simpl. f_equal. exact IH.
  - exists []. reflexivity.
Qed.

(** Trimmed notes neither start nor end with white space. *)
Lemma trim_ends (s : jsstring) :
  (forall c rest, trim s = c :: rest -> is_white c = false)
  /\ (forall c front, trim s = front ++ [c] -> is_white c = false).
Proof.
  unfold trim, trimEnd. split.
  - intros c rest H.
    destruct (trimStart_suffix (rev (trimStart s))) as [p Hp].
    apply (f_equal (@rev _)) in Hp. rewrite rev_involutive, rev_app_distr, H in Hp.
    simpl in Hp. apply (trimStart_head s c (rest ++ rev p)). exact Hp.
  - intros c front H. apply (f_equal (@rev _)) in H.
    rewrite rev_involutive, rev_app_distr in H. simpl in H.
    eapply trimStart_head. exact H.
Qed.

(** C7. The check-in request carries the selected challenge's id and, as
    [notes], the trimmed input; when the trimmed input is empty the body
    has no [notes] property at all, so an empty [notes] string is never
    transmitted. *)
Theorem checkin_notes_normalised (w : World) (selected : Challenge) :
  selectedChallenge (ui w) = Some selected ->
  exists body,
    inflight (handleCheckIn w) = inflight w ++ [PostCheckIn body]
    /\ json_get (js "challenge_id") body = Some (JString (id selected))
    /\ (trim (checkInNotes (ui w)) = [] -> json_get (js "notes") body = None)
    /\ (trim (checkInNotes (ui w)) <> [] ->
        json_get (js "notes") body = Some (JString (trim (checkInNotes (ui w)))))
    /\ json_get (js "notes") body <> Some (JString []).
Proof.
  intros Hsel. unfold handleCheckIn. rewrite Hsel.
  eexists. split; [reflexivity|].
  cbn [setIsSubmitting with_ui ui checkInNotes].
  unfold checkin_body. rewrite or_undefined_spec.
  assert (Hne : jsstring_eqb (js "notes") (js "challenge_id") = false) by reflexivity.
  destruct (trim (checkInNotes (ui w))) as [|c rest] eqn:Ht;
    cbn [stringify json_of_value of_option json_get];
    rewrite ?jsstring_eqb_refl, ?Hne.
  - repeat split; try congruence.
  - repeat split; try congruence.
Qed.

Lemma checkin_notes_normalised_witness :
  exists body,
    inflight (handleCheckIn (checking_in (sample_challenge "hydration" 1 3 false [])
                                         (js "  felt good ")))
    = [PostCheckIn body]
    /\ json_get (js "notes") body = Some (JString (js "felt good")).
Proof.
  destruct (checkin_notes_normalised
              (checking_in (sample_challenge "hydration" 1 3 false []) (js "  felt good "))
              (sample_challenge "hydration" 1 3 false []) eq_refl)
    as (body & Hsent & _ & _ & Hnotes & _).
  exists body. split; [exact Hsent|].
  apply Hnotes. vm_compute. discriminate.
Defined.

(** Blank notes are dropped from the request body. *)
Example blank_notes_omitted :
  inflight (handleCheckIn (checking_in (sample_challenge "hydration" 1 3 false [])
                                       (js "   ")))
  = [PostCheckIn [(js "challenge_id", JString (js "c1"))]].
Proof. reflexivity. Qed.

(** ** Controls offered by the screen *)

Lemma controls_badges (l : list jsstring) :
  flat_map controls (map renderBadge l) = [].
Proof. induction l as [|b l IH]; [reflexivity|]. simpl. exact IH. Qed.

Lemma controls_renderChallenge (env : Env) (challenge : Challenge) :
  controls (renderChallenge env challenge)
  = if is_completed challenge then [] else [(OpenCheckIn challenge, false)].
Proof.
  unfold renderChallenge.
  cbn [controls flat_map app]. rewrite !flat_map_app.
  destruct (0 <? Z.of_nat (length (badges challenge))),
           (is_completed challenge);
    cbn [negb when controls flat_map app]; rewrite ?controls_badges; reflexivity.
Qed.

Lemma controls_templates (submitting : bool) (l : list Template.t) :
  flat_map controls (map (renderTemplate submitting) l)
  = map (fun t => (StartChallenge t, submitting)) l.
Proof.
  induction l as [|t l IH]; [reflexivity|].
  cbn [map flat_map]. rewrite IH. reflexivity.
Qed.

Lemma controls_cards (env : Env) (l : list Challenge) :
  flat_map controls (map (renderChallenge env) l)
  = flat_map (fun c => if is_completed c then [] else [(OpenCheckIn c, false)]) l.
Proof.
  induction l as [|c l IH]; [reflexivity|].
  cbn [map flat_map]. rewrite IH, controls_renderChallenge. reflexivity.
Qed.

(** The controls of the whole screen, by state. *)
Lemma controls_render (env : Env) (s : State) :
  controls (render env s)
  = if isLoading s then []
    else (OpenSelection, false)
         :: (if (length (challenges s) =? 0)%nat then [(OpenSelection, false)]
             else flat_map (fun c => if is_completed c then []
                                     else [(OpenCheckIn c, false)]) (challenges s))
         ++ (if modalVisible s
             then (CloseSelection, false)
                  :: map (fun t => (StartChallenge t, isSubmitting s)) challengeTemplates
             else [])
         ++ (if checkInModal s
             then [(CloseCheckIn, false); (HandleCheckIn, isSubmitting s)]
             else []).
Proof.
  unfold render. destruct (isLoading s); [reflexivity|].
  cbn [controls flat_map app].
  rewrite controls_templates.
  destruct (length (challenges s) =? 0)%nat.
  - destruct (modalVisible s), (checkInModal s), (isSubmitting s); reflexivity.
  - rewrite controls_cards, !app_nil_r.
    destruct (modalVisible s), (checkInModal s), (isSubmitting s); reflexivity.
Qed.

Lemma elem_of_card_controls (l : list Challenge) (a : action) (d : bool) :
  (a, d) ∈ flat_map (fun c => if is_completed c then []
                               else [(OpenCheckIn c, false)]) l
  <-> exists c, c ∈ l /\ is_completed c = false /\ a = OpenCheckIn c /\ d = false.
Proof.
  rewrite list_elem_of_In, in_flat_map. split.
  - intros (c & Hc & Hin). exists c. rewrite list_elem_of_In. split; [exact Hc|].
    destruct (is_completed c); [destruct Hin|].
    destruct Hin as [[= <- <-]|[]]. auto.
  - intros (c & Hc & Hdone & -> & ->). exists c. rewrite <- list_elem_of_In.
    split; [exact Hc|]. rewrite Hdone. left. reflexivity.
Qed.

(** Which controls are mounted, and with which [disabled] flag. *)
Lemma elem_of_controls_render (env : Env) (s : State) (a : action) (d : bool) :
  (a, d) ∈ controls (render env s)
  <-> isLoading s = false
      /\ ((a = OpenSelection /\ d = false)
          \/ (exists c, c ∈ challenges s /\ is_completed c = false
                        /\ a = OpenCheckIn c /\ d = false)
          \/ (modalVisible s = true
              /\ ((a = CloseSelection /\ d = false)
                  \/ exists t, t ∈ challengeTemplates
                               /\ a = StartChallenge t /\ d = isSubmitting s))
          \/ (checkInModal s = true
              /\ ((a = CloseCheckIn /\ d = false)
                  \/ (a = HandleCheckIn /\ d = isSubmitting s)))).
Proof.
  rewrite controls_render. destruct (isLoading s).
  { rewrite elem_of_nil. naive_solver. }
  rewrite elem_of_cons, !elem_of_app.
  assert (Hcards :
    (a, d) ∈ (if (length (challenges s) =? 0)%nat then [(OpenSelection, false)]
              else flat_map (fun c => if is_completed c then []
                                      else [(OpenCheckIn c, false)]) (challenges s))
    <-> (a = OpenSelection /\ d = false /\ challenges s = [])
        \/ (exists c, c ∈ challenges s /\ is_completed c = false
                      /\ a = OpenCheckIn c /\ d = false)).
  { destruct (challenges s) as [|c0 l] eqn:E.
    - cbn [length Nat.eqb]. rewrite list_elem_of_singleton.
      split; [intros [= -> ->]; auto|].
      intros [(-> & -> & _)|(c & Hc & _)]; [reflexivity|].
      apply elem_of_nil in Hc. destruct Hc.
    - cbn [length Nat.eqb]. rewrite elem_of_card_controls.
      split; [auto|]. intros [(_ & _ & [=])|H]. exact H. }
  rewrite Hcards. clear Hcards.
  assert (Hsel :
    (a, d) ∈ (if modalVisible s
              then (CloseSelection, false)
                   :: map (fun t => (StartChallenge t, isSubmitting s)) challengeTemplates
              else [])
    <-> modalVisible s = true
        /\ ((a = CloseSelection /\ d = false)
            \/ exists t, t ∈ challengeTemplates
                         /\ a = StartChallenge t /\ d = isSubmitting s)).
  { destruct (modalVisible s).
    - rewrite elem_of_cons.
      change (map (fun t => (StartChallenge t, isSubmitting s)) challengeTemplates)
        with ((fun t => (StartChallenge t, isSubmitting s)) <$> challengeTemplates).
      rewrite list_elem_of_fmap. naive_solver.
    - rewrite elem_of_nil. naive_solver. }
  rewrite Hsel. clear Hsel.
  assert (Hchk :
    (a, d) ∈ (if checkInModal s
              then [(CloseCheckIn, false); (HandleCheckIn, isSubmitting s)]
              else [])
    <-> checkInModal s = true
        /\ ((a = CloseCheckIn /\ d = false)
            \/ (a = HandleCheckIn /\ d = isSubmitting s))).
  { destruct (checkInModal s).
    - rewrite !elem_of_cons, elem_of_nil. naive_solver.
    - rewrite elem_of_nil. naive_solver. }
  rewrite Hchk. clear Hchk.
  naive_solver.
Qed.

Lemma pressable_spec (env : Env) (s : State) (a : action) :
  pressable (render env s) a = true <-> (a, false) ∈ controls (render env s).
Proof. unfold pressable. apply bool_decide_eq_true. Qed.

Lemma pressable_HandleCheckIn (env : Env) (s : State) :
  pressable (render env s) HandleCheckIn = true
  <-> isLoading s = false /\ checkInModal s = true /\ isSubmitting s = false.
Proof.
  rewrite pressable_spec, elem_of_controls_render. split.
  - intros (Hl & [(? & _)|[(c & _ & _ & ? & _)|[(_ & [(? & _)|(t & _ & ? & _)])
                 |(Hm & [(? & _)|(_ & Hs)])]]]); try discriminate. auto.
  - intros (Hl & Hm & Hs). split; [exact Hl|]. right; right; right.
    split; [exact Hm|]. right. auto.
Qed.

Lemma pressable_StartChallenge (env : Env) (s : State) (template : Template.t) :
  pressable (render env s) (StartChallenge template) = true
  <-> isLoading s = false /\ modalVisible s = true /\ isSubmitting s = false
      /\ template ∈ challengeTemplates.
Proof.
  rewrite pressable_spec, elem_of_controls_render. split.
  - intros (Hl & [(? & _)|[(c & _ & _ & ? & _)|[(Hm & [(? & _)|(t & Ht & E & Hs)])
                 |(_ & [(? & _)|(? & _)])]]]); try discriminate.
    injection E as ->. auto.
  - intros (Hl & Hm & Hs & Ht). split; [exact Hl|]. right; right; left.
    split; [exact Hm|]. right. exists template. auto.
Qed.

Lemma pressable_OpenCheckIn (env : Env) (s : State) (challenge : Challenge) :
  pressable (render env s) (OpenCheckIn challenge) = true
  <-> isLoading s = false /\ challenge ∈ challenges s
      /\ is_completed challenge = false.
Proof.
  rewrite pressable_spec, elem_of_controls_render. split.
  - intros (Hl & [(? & _)|[(c & Hc & Hdone & E & _)|[(_ & [(? & _)|(t & _ & ? & _)])
                 |(_ & [(? & _)|(? & _)])]]]); try discriminate.
    injection E as ->. auto.
  - intros (Hl & Hc & Hdone). split; [exact Hl|]. right; left.
    exists challenge. auto.
Qed.

(** ** Check-in affordance of a card *)

Lemma styled_badges (name : string) (l : list jsstring) :
  String.eqb "badge" name = false -> String.eqb "badgeText" name = false ->
  List.filter (has_style name) (flat_map mounted (map renderBadge l)) = [].
Proof.
  intros H1 H2. induction l as [|b l IH]; [reflexivity|].
  cbn [map flat_map mounted renderBadge app List.filter has_style existsb].
  rewrite H1, H2. exact IH.
Qed.

Lemma banner_of_card (env : Env) (challenge : Challenge) :
  styled "completedBanner" (renderChallenge env challenge)
  = if is_completed challenge then [completedBanner] else [].
Proof.
  unfold styled, renderChallenge.
  cbn [mounted flat_map app]. rewrite !flat_map_app, !app_nil_r.
  cbn [List.filter has_style existsb String.eqb Ascii.eqb Bool.eqb orb].
  rewrite !List.filter_app.
  cbn [List.filter has_style existsb String.eqb Ascii.eqb Bool.eqb orb app].
  destruct (0 <? Z.of_nat (length (badges challenge))),
           (is_completed challenge);
    cbn [negb when mounted flat_map app List.filter has_style existsb
         String.eqb Ascii.eqb Bool.eqb orb];
    rewrite ?app_nil_r, ?(styled_badges "completedBanner") by reflexivity;
    reflexivity.
Qed.

Lemma mounted_self (n : node) : n ∈ mounted n.
Proof. destruct n; apply list_elem_of_here. Qed.

(** Every held challenge has its card on the loaded screen. *)
Lemma card_mounted (env : Env) (s : State) (challenge : Challenge) :
  isLoading s = false -> challenge ∈ challenges s ->
  renderChallenge env challenge ∈ mounted (render env s).
Proof.
  intros Hl Hc. unfold render. rewrite Hl.
  destruct (challenges s) as [|c0 l] eqn:E; [apply elem_of_nil in Hc; destruct Hc|].
  rewrite <- E in *. replace (length (challenges s) =? 0)%nat with false
    by (rewrite E; reflexivity).
  cbn [mounted flat_map].
  apply list_elem_of_further, elem_of_app. right.
  apply list_elem_of_further, elem_of_app. left.
  apply list_elem_of_In, in_flat_map. exists (renderChallenge env challenge).
  split.
  - apply in_map, list_elem_of_In, Hc.
  - apply list_elem_of_In, mounted_self.
Qed.

(** C6. On the loaded screen every held challenge has its card mounted; the
    card offers the check-in control exactly when [is_completed] is false,
    and shows the completed banner exactly when it is true. *)
Theorem checkin_offered_iff_not_completed
    (env : Env) (s : State) (challenge : Challenge) :
  isLoading s = false -> challenge ∈ challenges s ->
  renderChallenge env challenge ∈ mounted (render env s)
  /\ (pressable (render env s) (OpenCheckIn challenge) = true
      <-> is_completed challenge = false)
  /\ controls (renderChallenge env challenge)
     = (if is_completed challenge then [] else [(OpenCheckIn challenge, false)])
  /\ styled "completedBanner" (renderChallenge env challenge)
     = (if is_completed challenge then [completedBanner] else []).
Proof.
  intros Hl Hc. split; [apply card_mounted; assumption|]. split; [|split].
  - rewrite pressable_OpenCheckIn. split; [intros (_ & _ & H); exact H|auto].
  - apply controls_renderChallenge.
  - apply banner_of_card.
Qed.

Lemma checkin_offered_iff_not_completed_witness :
  styled "completedBanner"
    (renderChallenge sample_env (sample_challenge "hydration" 3 3 true []))
  = [completedBanner]
  /\ pressable (render sample_env (ui (loaded (sample_challenge "hydration" 3 3 true []))))
       (OpenCheckIn (sample_challenge "hydration" 3 3 true [])) = false.
Proof.
  destruct (checkin_offered_iff_not_completed sample_env
              (ui (loaded (sample_challenge "hydration" 3 3 true [])))
              (sample_challenge "hydration" 3 3 true [])
              eq_refl (list_elem_of_here _ _)) as (_ & Hpress & _ & Hbanner).
  split; [exact Hbanner|].
  destruct (pressable _ _); [|reflexivity].
  destruct Hpress as [Hpress _]. discriminate (Hpress eq_refl).
Defined.

(** ** Unknown templates and badges *)

Lemma find_template_unknown (challenge_type : jsstring) :
  (forall t, t ∈ challengeTemplates -> Template.type t <> challenge_type) ->
  find_template challenge_type = None.
Proof.
  intros H. unfold find_template.
  destruct (List.find _ challengeTemplates) as [t|] eqn:E; [|reflexivity].
  apply find_some in E as [Hin Heq].
  apply bool_decide_eq_true in Heq.
  exfalso. apply (H t); [apply list_elem_of_In, Hin|exact Heq].
Qed.

Lemma icons_badges (l : list jsstring) :
  flat_map (fun m => match m with
                     | Ionicons name _ color => [(name, color)]
                     | _ => []
                     end) (flat_map mounted (map renderBadge l))
  = map badge_icon l.
Proof.
  induction l as [|b l IH]; [reflexivity|].
  cbn [map flat_map mounted renderBadge app]. rewrite IH. reflexivity.
Qed.

(** The icons of a card: the template icon, one per badge, and the check
    mark of the completed banner. *)
Lemma icons_of_card (env : Env) (challenge : Challenge) :
  icons (renderChallenge env challenge)
  = (Some (or_else (opt_chain (find_template (challenge_type challenge)) Template.icon)
                   (js "star")),
     opt_chain (find_template (challenge_type challenge)) Template.color)
    :: map badge_icon (badges challenge)
    ++ (if is_completed challenge
        then [(Some (js "checkmark-circle"), Some (js "#10B981"))] else []).
Proof.
  unfold icons, renderChallenge.
  cbn [mounted flat_map app]. rewrite !flat_map_app, !app_nil_r.
  cbn [flat_map app]. f_equal.
  destruct (badges challenge) as [|b l] eqn:Eb.
  - destruct (is_completed challenge); reflexivity.
  - replace (0 <? Z.of_nat (length (b :: l))) with true by reflexivity.
    rewrite <- Eb.
    destruct (is_completed challenge);
      cbn [negb when mounted flat_map app]; rewrite ?app_nil_r, icons_badges;
      reflexivity.
Qed.

(** The claim of C8 fails where it promises fallback values: an unknown
    challenge type gets the icon [star] but no colour ([undefined], and the
    icon background is the string [undefined20]), and an unknown badge gets
    neither label, icon nor colour. *)
Lemma unknown_keys_counterexample :
  let challenge := sample_challenge "yoga" 1 3 false [js "mystery"] in
  find_template (challenge_type challenge) = None
  /\ badgeInfo !! js "mystery" = None
  /\ icons (renderChallenge sample_env challenge)
     = [(Some (js "star"), None); (None, None)]
  /\ backgrounds (renderChallenge sample_env challenge)
     = [VString (js "undefined20"); VUndefined; VUndefined]
  /\ renderBadge (js "mystery")
     = View (Some (js "mystery")) [Static "badge"] [
         Ionicons None 16 None;
         Text [Static "badgeText"] [Interp VUndefined]
       ].
Proof. vm_compute. repeat split. Qed.

(** C8, amended.  Rendering is total.  For a challenge whose type is not in
    the catalog the card's icon is [star] and its colour is [undefined];
    for a badge identifier the registry does not hold, the badge's icon,
    colour and label are all [undefined]: no fallback value is substituted
    for them. *)
Theorem unknown_keys_render (env : Env) (challenge : Challenge) :
  (forall t, t ∈ challengeTemplates -> Template.type t <> challenge_type challenge) ->
  hd_error (icons (renderChallenge env challenge)) = Some (Some (js "star"), None)
  /\ (forall badge, badgeInfo !! badge = None ->
        renderBadge badge
        = View (Some badge) [Static "badge"] [
            Ionicons None 16 None;
            Text [Static "badgeText"] [Interp VUndefined]
          ])
  /\ (forall badge, badge ∈ badges challenge -> badgeInfo !! badge = None ->
        (None, None) ∈ icons (renderChallenge env challenge)).
Proof.
  intros Hunknown. rewrite icons_of_card.
  rewrite (find_template_unknown _ Hunknown). split; [reflexivity|]. split.
  - intros badge Hb. unfold renderBadge. rewrite Hb. reflexivity.
  - intros badge Hin Hb. apply list_elem_of_further, elem_of_app. left.
    apply list_elem_of_In, in_map_iff. exists badge.
    split; [unfold badge_icon; rewrite Hb; reflexivity|apply list_elem_of_In, Hin].
Qed.

Lemma unknown_keys_render_witness :
  hd_error (icons (renderChallenge sample_env
                     (sample_challenge "yoga" 1 3 false [js "mystery"])))
  = Some (Some (js "star"), None).
Proof.
  refine (proj1 (unknown_keys_render sample_env
                   (sample_challenge "yoga" 1 3 false [js "mystery"]) _)).
  intros t Ht. unfold challengeTemplates in Ht.
  repeat (apply elem_of_cons in Ht as [->|Ht]; [vm_compute; discriminate|]).
  apply elem_of_nil in Ht. destruct Ht.
Defined.

(** ** Days left *)

Lemma ltb_of_Z (a b : Z) : ltb (of_Z a) (of_Z b) = (a <? b).
Proof.
  unfold ltb, of_Z, value_of, Qc_of_Z, Qccompare, Q2Qc. cbn [this].
  rewrite <- Qred_compare. unfold Qcompare, inject_Z. cbn [Qnum Qden].
  rewrite !Z.mul_1_r. unfold Z.ltb. destruct (a ?= b); reflexivity.
Qed.

(** Truncation towards zero is negative only from a full unit on. *)
Lemma quot_neg_iff (x d : Z) : 0 < d -> (Z.quot x d < 0 <-> x <= - d).
Proof.
  intros Hd. destruct (Z_lt_le_dec x 0) as [Hx|Hx].
  - replace x with (- (- x)) at 1 by lia. rewrite Z.quot_opp_l by lia.
    rewrite Z.quot_div_nonneg by lia. split; intros H.
    + destruct (Z_lt_le_dec (- x) d) as [Hs|Hs]; [|lia].
      rewrite Z.div_small in H by lia. lia.
    + assert (1 <= - x / d) by (apply Z.div_le_lower_bound; lia). lia.
  - rewrite Z.quot_div_nonneg by lia.
    assert (0 <= x / d) by (apply Z.div_pos; lia). lia.
Qed.

Lemma quot_days (q r : Z) :
  - DateFns.MS_PER_DAY < r < DateFns.MS_PER_DAY ->
  Z.quot (q * DateFns.MS_PER_DAY + r) DateFns.MS_PER_DAY
  = if (0 <? q) && (r <? 0) then q - 1
    else if (q <? 0) && (0 <? r) then q + 1 else q.
Proof.
  unfold DateFns.MS_PER_DAY. intros Hr.
  pose proof (Z.quot_rem' (q * 86400000 + r) 86400000) as E.
  assert (B : 0 <= q * 86400000 + r
              /\ 0 <= Z.rem (q * 86400000 + r) 86400000 < 86400000
              \/ q * 86400000 + r <= 0
                 /\ - (86400000) < Z.rem (q * 86400000 + r) 86400000 <= 0).
  { destruct (Z_le_gt_dec 0 (q * 86400000 + r)) as [H|H].
    - left. split; [exact H|]. apply Z.rem_bound_pos; lia.
    - right. split; [lia|].
      pose proof (Z.rem_bound_pos (- (q * 86400000 + r)) 86400000) as Hb.
      rewrite Z.rem_opp_l in Hb by lia. lia. }
  destruct (0 <? q) eqn:Hq, (r <? 0) eqn:Hr0, (q <? 0) eqn:Hq', (0 <? r) eqn:Hr1;
    cbn [andb]; lia.
Qed.

Lemma Math_round_days (n : Z) :
  DateFns.Math_round (n * DateFns.MS_PER_DAY) DateFns.MS_PER_DAY = n.
Proof.
  unfold DateFns.Math_round, DateFns.MS_PER_DAY.
  symmetry. apply Z.div_unique with (r := 86400000); lia.
Qed.

Section FullDays.

Variable LocalTZA : Z -> bool -> Z.

(** Where the two local midnights and the wall-clock time of the left date
    on the day of the right date exist, [fullDays] counts the full days
    between the two local times. *)
Lemma fullDays_local (l r : Z) :
  let L := DateFns.LocalTime LocalTZA l in
  let R := DateFns.LocalTime LocalTZA r in
  DateFns.local_time_exists LocalTZA (L / DateFns.MS_PER_DAY * DateFns.MS_PER_DAY) ->
  DateFns.local_time_exists LocalTZA (R / DateFns.MS_PER_DAY * DateFns.MS_PER_DAY) ->
  DateFns.local_time_exists LocalTZA
    (R / DateFns.MS_PER_DAY * DateFns.MS_PER_DAY + L mod DateFns.MS_PER_DAY) ->
  DateFns.fullDays LocalTZA l r = Z.quot (L - R) DateFns.MS_PER_DAY.
Proof.
  intros L R. unfold DateFns.local_time_exists. intros Hl Hr Hs.
  pose proof (Z.div_mod L DateFns.MS_PER_DAY ltac:(discriminate)) as EL.
  pose proof (Z.div_mod R DateFns.MS_PER_DAY ltac:(discriminate)) as ER.
  pose proof (Z.mod_pos_bound L DateFns.MS_PER_DAY eq_refl) as BL.
  pose proof (Z.mod_pos_bound R DateFns.MS_PER_DAY eq_refl) as BR.
  set (qL := L / DateFns.MS_PER_DAY) in *.
  set (qR := R / DateFns.MS_PER_DAY) in *.
  set (rL := L mod DateFns.MS_PER_DAY) in *.
  set (rR := R mod DateFns.MS_PER_DAY) in *.
  assert (Hcal : DateFns.differenceInCalendarDays LocalTZA l r = qL - qR).
  { unfold DateFns.differenceInCalendarDays, DateFns.startOfDay,
      DateFns.getTimezoneOffsetInMilliseconds.
    fold L R qL qR. rewrite Hl, Hr.
    rewrite <- (Math_round_days (qL - qR)). f_equal. lia. }
  unfold DateFns.fullDays. rewrite Hcal.
  unfold DateFns.setDate_back, DateFns.compareLocalAsc. fold L R.
  assert (Hsign : match L ?= R with Eq => 0 | Lt => -1 | Gt => 1 end
                  * Z.abs (qL - qR) = qL - qR).
  { unfold DateFns.MS_PER_DAY in *.
    destruct (Z.compare_spec L R) as [E|E|E]; nia. }
  rewrite Hsign.
  replace (L - (qL - qR) * DateFns.MS_PER_DAY)
    with (qR * DateFns.MS_PER_DAY + rL) by lia.
  rewrite Hs.
  replace (L - R) with ((qL - qR) * DateFns.MS_PER_DAY + (rL - rR)) by lia.
  rewrite quot_days by lia.
  clearbody qL qR rL rR L R. unfold DateFns.MS_PER_DAY in *.
  destruct (Z.compare_spec L R) as [E|E|E];
    destruct (Z.compare_spec (qR * 86400000 + rL) R) as [E'|E'|E'];
    cbv [Z.opp Z.eqb Pos.eqb];
    destruct (0 <? qL - qR) eqn:H1, (rL - rR <? 0) eqn:H2,
             (qL - qR <? 0) eqn:H3, (0 <? rL - rR) eqn:H4;
    cbn [andb]; lia.
Qed.

(** In a zone with a fixed offset every local time exists, and the local
    times of two instants are as far apart as the instants. *)
Lemma fullDays_fixed_offset (offset l r : Z) :
  (forall t isUTC, LocalTZA t isUTC = offset) ->
  DateFns.fullDays LocalTZA l r = Z.quot (l - r) DateFns.MS_PER_DAY.
Proof.
  intros Hz.
  assert (Hx : forall t, DateFns.local_time_exists LocalTZA t).
  { intros t. unfold DateFns.local_time_exists, DateFns.LocalTime, DateFns.UTC.
    rewrite !Hz. lia. }
  rewrite fullDays_local by apply Hx.
  unfold DateFns.LocalTime. rewrite !Hz. f_equal. lia.
Qed.

End FullDays.

(** The card does not depend on the clock. *)
Lemma renderChallenge_clock (env env' : Env) (challenge : Challenge) :
  renderChallenge env challenge = renderChallenge env' challenge.
Proof. reflexivity. Qed.

(** The claim of C9 fails twice.  A challenge whose end date lies twelve
    hours in the past has 0 days left, not a negative number; and whether a
    challenge has lapsed by five days or still has five days to go, its
    card is the same: the days left are computed but never displayed.
    Days are counted on the local calendar: where the clocks moved forward
    in between, a lapse of 23 hours is a full day. *)
Lemma days_left_counterexample :
  let challenge := sample_challenge "hydration" 1 3 false [] in
  let utc now := {| Date_parse := fun _ => Some 0; Date_now := now;
                    LocalTZA := fun _ _ => 0 |} in
  daysLeft (utc 43200000) challenge = of_Z 0
  /\ ltb (daysLeft (utc 43200000) challenge) (of_Z 0) = false
  /\ daysLeft (utc 432000000) challenge = of_Z (-5)
  /\ daysLeft (utc (-432000000)) challenge = of_Z 5
  /\ renderChallenge (utc 432000000) challenge
     = renderChallenge (utc (-432000000)) challenge
  /\ daysLeft (dst_env (43200000 + 23 * 3600000)) challenge = of_Z (-1).
Proof.
  cbv zeta.
  split; [reflexivity|]. split; [reflexivity|]. split; [reflexivity|].
  split; [reflexivity|]. split; reflexivity.
Qed.

(** C9, amended.  For a challenge with a valid end date, [daysLeft] is the
    number of full days between the local time of the end date and the
    local time of the current instant, truncated towards zero and not
    clamped: it is negative exactly when the local clock is a full day or
    more past the local end time.  This holds wherever the local midnights
    of the two days and the wall-clock time of the end date on the current
    day exist; in a zone with a fixed offset it is the truncated quotient of
    the elapsed milliseconds.  The value is not part of the rendered card,
    which is the same at every instant. *)
Theorem days_left_unclamped (env : Env) (challenge : Challenge) (endTime : Z) :
  let localEnd := DateFns.LocalTime (LocalTZA env) endTime in
  let localNow := DateFns.LocalTime (LocalTZA env) (Date_now env) in
  let midnight t := t / DateFns.MS_PER_DAY * DateFns.MS_PER_DAY in
  Date_parse env (end_date challenge) = Some endTime ->
  DateFns.local_time_exists (LocalTZA env) (midnight localEnd) ->
  DateFns.local_time_exists (LocalTZA env) (midnight localNow) ->
  DateFns.local_time_exists (LocalTZA env)
    (midnight localNow + localEnd mod DateFns.MS_PER_DAY) ->
  daysLeft env challenge
  = of_Z (Z.quot (localEnd - localNow) DateFns.MS_PER_DAY)
  /\ (ltb (daysLeft env challenge) (of_Z 0) = true
      <-> localEnd + DateFns.MS_PER_DAY <= localNow)
  /\ (forall offset, (forall t isUTC, LocalTZA env t isUTC = offset) ->
        daysLeft env challenge
        = of_Z (Z.quot (endTime - Date_now env) DateFns.MS_PER_DAY))
  /\ (forall env', renderChallenge env' challenge = renderChallenge env challenge).
Proof.
  intros localEnd localNow midnight Hend Hl Hr Hs.
  assert (Hd : daysLeft env challenge
               = of_Z (Z.quot (localEnd - localNow) DateFns.MS_PER_DAY)).
  { unfold daysLeft. rewrite Hend. unfold DateFns.differenceInDays.
    f_equal. apply fullDays_local; assumption. }
  split; [exact Hd|]. split; [|split].
  - rewrite Hd, ltb_of_Z, Z.ltb_lt, quot_neg_iff by reflexivity. lia.
  - intros offset Hz. unfold daysLeft. rewrite Hend.
    unfold DateFns.differenceInDays. f_equal.
    apply fullDays_fixed_offset with (offset := offset). exact Hz.
  - intros env'. apply renderChallenge_clock.
Qed.

Lemma days_left_unclamped_witness :
  daysLeft (dst_env (43200000 + 23 * 3600000))
           (sample_challenge "hydration" 1 3 false [])
  = of_Z (-1).
Proof.
  exact (proj1 (days_left_unclamped
                  (dst_env (43200000 + 23 * 3600000))
                  (sample_challenge "hydration" 1 3 false []) 43200000
                  eq_refl eq_refl eq_refl eq_refl)).
Defined.

(** ** New-badges signal *)

Lemma newBadgesText_nonempty (data : CheckInResult) :
  newBadgesText data <> [] <-> res_badges data <> [].
Proof.
  unfold newBadgesText. destruct (res_badges data) as [|b l].
  - simpl. split; intros H; exfalso; apply H; reflexivity.
  - replace (0 <? Z.of_nat (length (b :: l))) with true by reflexivity.
    split; intros _; discriminate.
Qed.

Lemma spec_badge_delta_sub (post pre : list jsstring) :
  spec_badge_delta post pre <> [] -> post <> [].
Proof. intros H ->. apply H. reflexivity. Qed.

(** The claim of C2 fails: a check-in on a challenge that already holds
    [3_day_streak], answered with the same badges, has an empty badge delta
    and still raises the new-badges text. *)
Lemma badge_delta_counterexample :
  let challenge := sample_challenge "no_sugar" 3 7 false [js "3_day_streak"] in
  let data := {| ai_feedback := js "Keep going";
                 res_completed_days := of_Z 4;
                 res_badges := [js "3_day_streak"] |} in
  spec_badge_delta (res_badges data) (badges challenge) = []
  /\ exists w,
       run sample_env (checking_in challenge [])
           [Press HandleCheckIn; Settle 0 (Fulfilled (CheckedIn data))] = Some w
       /\ alerts w = [checkin_alert data]
       /\ newBadgesText data = [10; 55356; 57286]%N ++ js " New badges earned!".
Proof.
  cbv zeta. split; [reflexivity|].
  eexists. split; [vm_compute; reflexivity|]. split; reflexivity.
Qed.

(** C2, amended.  A successful check-in raises one alert whose last part is
    the new-badges text; the text is present exactly when the returned
    [badges] array is non-empty.  No comparison with the badges of the
    selected challenge is made: the signal is shown whenever the badge
    delta is non-empty, and also when every returned badge was already
    held. *)
Theorem new_badges_signal (env : Env) (w : World) (i : nat)
    (body : list (jsstring * json)) (data : CheckInResult) :
  inflight w !! i = Some (PostCheckIn body) ->
  exists w',
    step env w (Settle i (Fulfilled (CheckedIn data))) = Some w'
    /\ alerts w' = alerts w ++ [checkin_alert data]
    /\ (newBadgesText data <> [] <-> res_badges data <> [])
    /\ (forall pre, spec_badge_delta (res_badges data) pre <> [] ->
                    newBadgesText data <> []).
Proof.
  intros Hreq. eexists. split; [|split; [|split]].
  - cbn [step]. rewrite Hreq. reflexivity.
  - reflexivity.
  - apply newBadgesText_nonempty.
  - intros pre Hdelta. apply newBadgesText_nonempty.
    eapply spec_badge_delta_sub, Hdelta.
Qed.

Lemma new_badges_signal_witness :
  let data := {| ai_feedback := js "Done"; res_completed_days := of_Z 3;
                 res_badges := [js "challenge_completed"] |} in
  exists w',
    step sample_env
         (handleCheckIn (checking_in (sample_challenge "hydration" 2 3 false []) []))
         (Settle 0 (Fulfilled (CheckedIn data))) = Some w'
    /\ alerts w' = [checkin_alert data].
Proof.
  cbv zeta.
  destruct (new_badges_signal sample_env
              (handleCheckIn (checking_in (sample_challenge "hydration" 2 3 false []) []))
              0 _ {| ai_feedback := js "Done"; res_completed_days := of_Z 3;
                     res_badges := [js "challenge_completed"] |} eq_refl)
    as (w' & Hstep & Halerts & _).
  exists w'. split; [exact Hstep|exact Halerts].
Defined.

(** ** Failed list fetch *)

(** The claim of C5 fails where it promises a user-visible message: when
    the first fetch is rejected, no alert is raised; the error goes to the
    console and the screen shows the empty list. *)
Lemma load_failure_counterexample :
  exists w,
    step sample_env mount (Settle 0 (Rejected {| detail := VString (js "timeout") |}))
    = Some w
    /\ alerts w = []
    /\ console w = [{| log_message := js "Error loading challenges:";
                       log_error := {| detail := VString (js "timeout") |} |}]
    /\ challenges (ui w) = []
    /\ inflight w = [].
Proof. eexists. split; [reflexivity|]. repeat split. Qed.

Lemma press_loads (a : action) (w : World) :
  loads_inflight (press a w) = loads_inflight w.
Proof.
  unfold loads_inflight.
  destruct a; try reflexivity.
  - cbn [press startChallenge send setIsSubmitting with_ui inflight].
    rewrite filter_app, length_app. simpl. lia.
  - cbn [press]. unfold handleCheckIn.
    destruct (selectedChallenge (ui w)); [|reflexivity].
    cbn [send setIsSubmitting with_ui inflight].
    rewrite filter_app, length_app. simpl. lia.
Qed.

(** C5, amended.  When a list fetch is rejected, the held challenge list
    and every other state cell but [isLoading] are left as they were,
    [isLoading] is cleared, and the error is written to the console.  No
    alert is raised and no request is sent in its place; no control of the
    screen issues a list fetch by itself. *)
Theorem load_failure_keeps_list (env : Env) (w : World) (i : nat)
    (error : AxiosError) :
  inflight w !! i = Some GetActive ->
  exists w',
    step env w (Settle i (Rejected error)) = Some w'
    /\ challenges (ui w') = challenges (ui w)
    /\ ui w' = ui (setIsLoading false w)
    /\ alerts w' = alerts w
    /\ console w' = console w ++ [{| log_message := js "Error loading challenges:";
                                     log_error := error |}]
    /\ inflight w' = delete i (inflight w)
    /\ (forall a, loads_inflight (press a w') = loads_inflight w').
Proof.
  intros Hreq. eexists. split; [cbn [step]; rewrite Hreq; reflexivity|].
  repeat split. intros a. apply press_loads.
Qed.

Lemma load_failure_keeps_list_witness :
  exists w',
    step sample_env mount (Settle 0 (Rejected {| detail := VUndefined |})) = Some w'
    /\ challenges (ui w') = [] /\ alerts w' = [].
Proof.
  destruct (load_failure_keeps_list sample_env mount 0 {| detail := VUndefined |} eq_refl)
    as (w' & Hstep & Hlist & _ & Halerts & _).
  exists w'. split; [exact Hstep|]. split; [exact Hlist|exact Halerts].
Defined.

(** ** Failed check-in *)

Lemma delete_last {A : Type} (l : list A) (x : A) :
  delete (length l) (l ++ [x]) = l.
Proof.
  induction l as [|a l IH]; [reflexivity|].
  cbn [length app]. change (delete (S (length l)) (a :: (l ++ [x])))
    with (a :: delete (length l) (l ++ [x])). rewrite IH. reflexivity.
Qed.

(** Whatever happened while the request was pending, handling its failure
    touches no state cell but [isSubmitting], raises one error alert and
    sends nothing. *)
Lemma checkin_rejected_cells (env : Env) (w : World) (i : nat)
    (body : list (jsstring * json)) (error : AxiosError) :
  inflight w !! i = Some (PostCheckIn body) ->
  exists w',
    step env w (Settle i (Rejected error)) = Some w'
    /\ ui w' = ui (setIsSubmitting false w)
    /\ challenges (ui w') = challenges (ui w)
    /\ selectedChallenge (ui w') = selectedChallenge (ui w)
    /\ checkInNotes (ui w') = checkInNotes (ui w)
    /\ checkInModal (ui w') = checkInModal (ui w)
    /\ isSubmitting (ui w') = false
    /\ inflight w' = delete i (inflight w)
    /\ alerts w' = alerts w ++ [error_alert error "Failed to check in"]
    /\ console w' = console w.
Proof.
  intros Hreq. eexists. split; [cbn [step]; rewrite Hreq; reflexivity|].
  repeat split.
Qed.

(** C4. A check-in attempt that fails leaves the client where it was before
    the attempt: every state cell (challenge list, selected challenge,
    notes, modal flags, [isSubmitting]) and hence every rendered card is
    unchanged, nothing stays in flight, one error alert carrying the
    backend's detail or the fallback text is raised, and the submit control
    can be pressed again, sending the same request. *)
Theorem checkin_failure_no_mutation (env : Env) (w0 w1 : World)
    (selected : Challenge) (error : AxiosError) :
  selectedChallenge (ui w0) = Some selected ->
  step env w0 (Press HandleCheckIn) = Some w1 ->
  exists w2,
    step env w1 (Settle (length (inflight w0)) (Rejected error)) = Some w2
    /\ ui w2 = ui w0
    /\ inflight w2 = inflight w0
    /\ render env (ui w2) = render env (ui w0)
    /\ map progress (challenges (ui w2)) = map progress (challenges (ui w0))
    /\ alerts w2 = alerts w0 ++ [error_alert error "Failed to check in"]
    /\ console w2 = console w0
    /\ exists w3,
         step env w2 (Press HandleCheckIn) = Some w3
         /\ inflight w3 = inflight w1.
Proof.
  intros Hsel Hpress. cbn [step] in Hpress.
  destruct (pressable (render env (ui w0)) HandleCheckIn) eqn:Hen; [|discriminate].
  injection Hpress as <-.
  pose proof Hen as Hen'. apply pressable_HandleCheckIn in Hen' as (Hl & Hm & Hs).
  set (req := PostCheckIn (stringify (checkin_body selected (checkInNotes (ui w0))))).
  assert (Hw1 : handleCheckIn w0 = send req (setIsSubmitting true w0)).
  { unfold handleCheckIn. rewrite Hsel. reflexivity. }
  cbn [press]. rewrite Hw1.
  set (w2 := handleCheckIn_rejected error
               (settled (length (inflight w0)) (send req (setIsSubmitting true w0)))).
  assert (Hui : ui w2 = ui w0).
  { subst w2. destruct w0 as [s fl al cl]. cbn [ui] in *. destruct s. simpl in *.
    subst. reflexivity. }
  assert (Hfl : inflight w2 = inflight w0).
  { subst w2. cbn [handleCheckIn_rejected Alert_alert setIsSubmitting with_ui
                   settled send inflight]. apply delete_last. }
  exists w2. split.
  { cbn [step]. cbn [send setIsSubmitting with_ui inflight].
    rewrite lookup_app_r, Nat.sub_diag by lia. reflexivity. }
  split; [exact Hui|]. split; [exact Hfl|].
  split; [rewrite Hui; reflexivity|]. split; [rewrite Hui; reflexivity|].
  split; [reflexivity|]. split; [reflexivity|].
  exists (press HandleCheckIn w2). split.
  - cbn [step]. rewrite Hui, Hen. reflexivity.
  - cbn [press]. unfold handleCheckIn. rewrite Hui, Hsel.
    cbn [send setIsSubmitting with_ui inflight]. rewrite Hfl. reflexivity.
Qed.

Lemma checkin_failure_no_mutation_witness :
  let w0 := checking_in (sample_challenge "hydration" 1 3 false []) (js "day two") in
  exists w2,
    step sample_env (handleCheckIn w0)
         (Settle 0 (Rejected {| detail := VString (js "Already checked in today") |}))
    = Some w2
    /\ ui w2 = ui w0
    /\ alerts w2
       = [error_alert {| detail := VString (js "Already checked in today") |}
                      "Failed to check in"].
Proof.
  cbv zeta.
  destruct (checkin_failure_no_mutation sample_env
              (checking_in (sample_challenge "hydration" 1 3 false []) (js "day two"))
              (handleCheckIn
                 (checking_in (sample_challenge "hydration" 1 3 false []) (js "day two")))
              (sample_challenge "hydration" 1 3 false [])
              {| detail := VString (js "Already checked in today") |}
              eq_refl eq_refl)
    as (w2 & Hstep & Hui & _ & _ & _ & Halerts & _).
  exists w2. split; [exact Hstep|]. split; [exact Hui|exact Halerts].
Defined.

(** ** The submitting flag *)

Lemma mutating_delete (l : list request) (i : nat) (r : request) :
  l !! i = Some r ->
  (length (filter (fun r => mutating r = true) (delete i l))
   + (if mutating r then 1 else 0)
   = length (filter (fun r => mutating r = true) l))%nat.
Proof.
  revert i. induction l as [|a l IH]; intros i Hi; [discriminate|].
  destruct i as [|i].
  - injection Hi as ->. cbn [delete list_delete].
    rewrite filter_cons. destruct (mutating r) eqn:E.
    + rewrite decide_True by reflexivity. simpl. lia.
    + rewrite decide_False by discriminate. lia.
  - cbn [lookup list_lookup] in Hi. specialize (IH i Hi).
    change (delete (S i) (a :: l)) with (a :: delete i l).
    rewrite !filter_cons. destruct (decide (mutating a = true)); simpl; lia.
Qed.

Lemma mutating_send (r : request) (w : World) :
  mutating_inflight (send r w)
  = (mutating_inflight w + (if mutating r then 1 else 0))%nat.
Proof.
  unfold mutating_inflight. cbn [send inflight].
  rewrite filter_app, length_app, filter_cons, filter_nil.
  destruct (mutating r) eqn:E.
  - rewrite decide_True by reflexivity. reflexivity.
  - rewrite decide_False by discriminate. reflexivity.
Qed.

Lemma flag_tracks_press (env : Env) (w : World) (a : action) :
  flag_tracks_requests w ->
  pressable (render env (ui w)) a = true ->
  flag_tracks_requests (press a w).
Proof.
  unfold flag_tracks_requests. intros Hinv Hen.
  destruct a; cbn [press]; try exact Hinv.
  - apply pressable_StartChallenge in Hen as (_ & _ & Hs & _).
    rewrite Hs in Hinv. unfold startChallenge. rewrite mutating_send.
    cbn [mutating send setIsSubmitting with_ui ui isSubmitting].
    change (mutating_inflight (setIsSubmitting true w)) with (mutating_inflight w).
    rewrite Hinv. reflexivity.
  - apply pressable_HandleCheckIn in Hen as (_ & _ & Hs).
    unfold handleCheckIn. destruct (selectedChallenge (ui w)); [|exact Hinv].
    rewrite Hs in Hinv. rewrite mutating_send.
    cbn [mutating send setIsSubmitting with_ui ui isSubmitting].
    change (mutating_inflight (setIsSubmitting true w)) with (mutating_inflight w).
    rewrite Hinv. reflexivity.
Qed.

(** Settling a mutating request clears the flag and leaves none in
    flight; settling a list fetch leaves both as they were. *)
Lemma flag_tracks_settle (w : World) (i : nat) (r : request) (o : outcome)
    (w' : World) :
  flag_tracks_requests w ->
  inflight w !! i = Some r ->
  resume r o (settled i w) = Some w' ->
  flag_tracks_requests w'
  /\ (mutating r = true -> isSubmitting (ui w') = false /\ mutating_inflight w' = 0%nat).
Proof.
  unfold flag_tracks_requests. intros Hinv Hi Hres.
  pose proof (mutating_delete _ _ _ Hi) as Hdel.
  fold (mutating_inflight w) in Hdel.
  assert (Hbound : (mutating_inflight w <= 1)%nat)
    by (rewrite Hinv; destruct (isSubmitting (ui w)); lia).
  destruct r as [|body|body], o as [[data| |data|]|error];
    try discriminate Hres; injection Hres as <-;
    cbn [mutating] in Hdel;
    unfold loadChallenges_fulfilled, loadChallenges_rejected,
      startChallenge_fulfilled, startChallenge_rejected,
      handleCheckIn_fulfilled, handleCheckIn_rejected, handleCheckIn_catch,
      loadChallenges,
      mutating_inflight in *;
    cbn [setChallenges setIsLoading setModalVisible setCheckInModal
         setCheckInNotes setIsSubmitting with_ui console_error Alert_alert send
         settled ui inflight isSubmitting mutating] in *;
    rewrite ?filter_app, ?length_app, ?filter_cons, ?filter_nil;
    rewrite ?decide_False by discriminate; cbn [length];
    (split; [|intros Hm; try discriminate Hm]);
    try (destruct (isSubmitting (ui w)); lia); try (split; [reflexivity|lia]).
Qed.

Lemma flag_tracks_reachable (w : World) :
  reachable w -> flag_tracks_requests w.
Proof.
  induction 1 as [|env w ev w' Hreach IH Hstep]; [reflexivity|].
  destruct ev as [a|text|i o]; cbn [step] in Hstep.
  - destruct (pressable (render env (ui w)) a) eqn:Hen; [|discriminate].
    injection Hstep as <-. eapply flag_tracks_press; eassumption.
  - destruct (inputs (render env (ui w))); [discriminate|].
    injection Hstep as <-. exact IH.
  - destruct (inflight w !! i) as [r|] eqn:Hi; [|discriminate].
    eapply flag_tracks_settle; eassumption.
Qed.

Lemma reachable_run (env : Env) (evs : list event) (w w' : World) :
  reachable w -> run env w evs = Some w' -> reachable w'.
Proof.
  revert w. induction evs as [|ev evs IH]; intros w Hw Hrun; cbn [run] in Hrun.
  - injection Hrun as <-. exact Hw.
  - destruct (step env w ev) as [w1|] eqn:Hstep; [|discriminate].
    apply (IH w1); [|exact Hrun]. eapply reachable_step; eassumption.
Qed.

(** C10. In every reachable state the [isSubmitting] flag is set exactly
    while a create or check-in request is in flight, so at most one such
    request is in flight at a time; while one is, the submit control and
    every template control are disabled, whichever of the two workflows
    started it; and when the request settles, fulfilled or rejected, the
    flag is cleared and no mutating request remains. *)
Theorem single_submission (w : World) :
  reachable w ->
  (mutating_inflight w <= 1)%nat
  /\ (isSubmitting (ui w) = true <-> mutating_inflight w = 1%nat)
  /\ (forall env a d,
        (0 < mutating_inflight w)%nat ->
        (a, d) ∈ controls (render env (ui w)) ->
        a = HandleCheckIn \/ (exists template, a = StartChallenge template) ->
        d = true /\ pressable (render env (ui w)) a = false)
  /\ (forall env i r o w',
        inflight w !! i = Some r -> mutating r = true ->
        step env w (Settle i o) = Some w' ->
        isSubmitting (ui w') = false /\ mutating_inflight w' = 0%nat).
Proof.
  intros Hreach. pose proof (flag_tracks_reachable w Hreach) as Hinv.
  unfold flag_tracks_requests in Hinv.
  split; [rewrite Hinv; destruct (isSubmitting (ui w)); lia|].
  split; [rewrite Hinv; destruct (isSubmitting (ui w)); split; intros; congruence|].
  split.
  - intros env a d Hpos Hin Ha.
    assert (Hs : isSubmitting (ui w) = true).
    { destruct (isSubmitting (ui w)); [reflexivity|]. rewrite Hinv in Hpos. lia. }
    assert (Hd : d = true).
    { apply elem_of_controls_render in Hin as (_ & Hin). rewrite Hs in Hin.
      destruct Ha as [->|[t ->]];
        destruct Hin as [(? & _)|[(c & _ & _ & ? & _)
                        |[(_ & [(? & _)|(t' & _ & ? & E)])
                        |(_ & [(? & _)|(? & E)])]]];
        try discriminate; exact E. }
    split; [exact Hd|].
    destruct (pressable (render env (ui w)) a) eqn:Hen; [|reflexivity].
    exfalso. destruct Ha as [->|[t ->]].
    + apply pressable_HandleCheckIn in Hen as (_ & _ & Hf). congruence.
    + apply pressable_StartChallenge in Hen as (_ & _ & Hf & _). congruence.
  - intros env i r o w' Hi Hm Hstep. cbn [step] in Hstep. rewrite Hi in Hstep.
    destruct (flag_tracks_settle w i r o w' Hinv Hi Hstep) as [_ H].
    exact (H Hm).
Qed.

Lemma single_submission_witness :
  exists w,
    run sample_env mount
        (Settle 0 (Fulfilled (ActiveChallenges []))
         :: Press OpenSelection
         :: map (fun t => Press (StartChallenge t)) (take 1 challengeTemplates))
    = Some w
    /\ isSubmitting (ui w) = true
    /\ mutating_inflight w = 1%nat.
Proof.
  destruct (run sample_env mount _) as [w|] eqn:Hrun;
    [|vm_compute in Hrun; discriminate Hrun].
  assert (Hs : isSubmitting (ui w) = true)
    by (vm_compute in Hrun; injection Hrun as <-; reflexivity).
  pose proof (single_submission w (reachable_run _ _ _ _ reachable_mount Hrun))
    as (_ & Hflag & _ & _).
  exists w. split; [reflexivity|]. split; [exact Hs|apply Hflag, Hs].
Defined.

(** ** Binary64 cross-check *)

(** In binary64, for every duration from 1 to 100 days (the catalog has 3,
    7, 14 and 30) and every day count up to it, the progress lies within
    [0, 100], does not decrease with the day count, and is exactly 0 and
    100 at the two ends. *)
Lemma binary64_well_behaved :
  forallb Binary64.well_behaved (map Z.of_nat (seq 1 100)) = true.
Proof. vm_compute. reflexivity. Qed.

(** The two orders of evaluation agree only up to rounding: at 1 of 3 days
    they are neighbouring binary64 numbers. *)
Lemma binary64_rounding :
  Binary64.progressPercent 1 3 = SpecFloat.S754_finite false 4691249611844266 (-47)
  /\ Binary64.spec_progressPercent 1 3
     = SpecFloat.S754_finite false 4691249611844267 (-47).
Proof. split; vm_compute; reflexivity. Qed.

(** The rounding of the number model is the rounding of [SpecFloat]: the
    two agree on the progress of every pair of the grid, zero and negative
    counts and the ends of the exponent range included. *)
Lemma binary64_model_agrees : binary64_agrees binary64_grid = true.
Proof. vm_compute. reflexivity. Qed.

(** A zero duration gives [NaN] or an infinity in binary64 as well. *)
Lemma binary64_zero_duration :
  Binary64.progressPercent 0 0 = SpecFloat.S754_nan
  /\ Binary64.progressPercent 2 0 = SpecFloat.S754_infinity false.
Proof. split; vm_compute; reflexivity. Qed.

(** ** Scenarios *)

(** A freshly created three-day challenge stands at 0 percent. *)
Example scenario_created :
  progress (sample_challenge "hydration" 0 3 false []) = of_Z 0.
Proof. reflexivity. Qed.

(** After the first check-in it stands at 33.33333333333333, and a
    response without badges raises no new-badges text. *)
Example scenario_first_checkin :
  progress (sample_challenge "hydration" 1 3 false [])
  = Fin (Q2Qc (4691249611844266 # 140737488355328))
  /\ newBadgesText {| ai_feedback := js "Nice"; res_completed_days := of_Z 1;
                      res_badges := [] |} = [].
Proof. split; [apply same_number_spec; vm_compute|]; reflexivity. Qed.

(** The third check-in returns [challenge_completed]: the delta against the
    empty previous set is non-empty and the new-badges text is raised; once
    the reloaded challenge is completed its card offers no check-in. *)
Example scenario_completed :
  spec_badge_delta [js "challenge_completed"] [] = [js "challenge_completed"]
  /\ newBadgesText {| ai_feedback := js "Done"; res_completed_days := of_Z 3;
                      res_badges := [js "challenge_completed"] |} <> []
  /\ progress (sample_challenge "hydration" 3 3 true [js "challenge_completed"])
     = of_Z 100
  /\ controls (renderChallenge sample_env
                 (sample_challenge "hydration" 3 3 true [js "challenge_completed"]))
     = [].
Proof.
  split; [reflexivity|]. split; [discriminate|].
  split; [apply same_number_spec; vm_compute|]; reflexivity.
Qed.

(** Trimming strips white space on both sides, line ends and no-break
    spaces included, and keeps it inside. *)
Example trim_example :
  trim ([160; 10]%N ++ js " two words " ++ [13; 8232]%N) = js "two words".
Proof. reflexivity. Qed.

(** * Further properties of the screen *)

(** ** Progress is not clamped *)

Section Unclamped.

#[local] Open Scope Qc_scope.

(** A non-negative value rounds to a finite number or overflows to
    [Infinity]. *)
Lemma round64_nonneg_cases (x : Qc) :
  0 <= x ->
  round64 x = Infinity false /\ (bpow emax <= round_pos x)%Q
  \/ exists r : Qc,
       round64 x = Fin r /\ (r == round_pos x)%Q /\ (round_pos x < bpow emax)%Q.
Proof.
  intros Hx. destruct (Qlt_le_dec (round_pos x) (bpow emax)) as [H|H].
  - right. destruct (round64_nonneg x Hx H) as (r & Er & Hr).
    exists r. split; [exact Er|]. split; assumption.
  - left. split; [|exact H]. unfold round64.
    rewrite (Qabs_nonneg_eq x Hx), (is_neg_false x Hx).
    apply Qle_bool_iff in H. rewrite H. reflexivity.
Qed.

(** Rounding preserves the order of non-negative values. *)
Lemma round64_mono (x y : Qc) :
  0 <= x -> x <= y -> leb (round64 x) (round64 y) = true.
Proof.
  intros Hx Hxy. pose proof (Qcle_trans _ _ _ Hx Hxy) as Hy.
  pose proof (round_pos_mono_c x y Hx Hxy) as Hm.
  destruct (round64_nonneg_cases y Hy) as [[-> Hoy]|(ry & -> & Hry & Hby)];
    destruct (round64_nonneg_cases x Hx) as [[-> Hox]|(rx & -> & Hrx & Hbx)];
    try reflexivity.
  - exfalso. apply (Qlt_irrefl (bpow emax)).
    apply Qle_lt_trans with (round_pos y); [|exact Hby].
    apply Qle_trans with (round_pos x); assumption.
  - apply leb_Fin. unfold Qcle. rewrite Hrx, Hry. exact Hm.
Qed.

(** A negative value rounds to a negative number, to [-0] or to
    [-Infinity]. *)
Lemma round64_neg (x : Qc) : x < 0 -> leb (round64 x) (of_Z 0) = true.
Proof.
  intros Hx. unfold round64. rewrite (is_neg_true x Hx).
  destruct (Qle_bool _ _); [reflexivity|].
  destruct (Qeq_bool _ _); [reflexivity|].
  unfold of_Z. apply leb_Fin. unfold Qcle. cbn [this Q2Qc].
  rewrite Qred_correct. change (this (Qc_of_Z 0)) with 0%Q.
  pose proof (round_pos_nonneg (Qabs x) (Qabs_nonneg x)). lra.
Qed.

Lemma scale_nonneg (r : Qc) : 0 <= r -> 0 <= r * Qc_of_Z 100.
Proof.
  intros Hr. replace 0 with (0 * Qc_of_Z 100) by ring.
  apply Qcmult_le_compat_r; [exact Hr|discriminate].
Qed.

(** From zero days on, the progress does not decrease with the completed
    days, whatever their number. *)
Lemma progressPercent_mono (c c' d : Qc) :
  0 < d -> 0 <= c -> c <= c' ->
  leb (progressPercent (Fin c) (Fin d)) (progressPercent (Fin c') (Fin d)) = true.
Proof.
  intros Hd Hc Hcc'. pose proof (Qcle_trans _ _ _ Hc Hcc') as Hc'.
  pose proof (pos_nonzero d Hd) as Hd0.
  assert (Hq0 : 0 <= c / d).
  { replace 0 with (0 / d) by (field; exact Hd0). apply ratio_le; assumption. }
  pose proof (ratio_le c c' d Hd Hcc') as Hqq.
  pose proof (Qcle_trans _ _ _ Hq0 Hqq) as Hq0'.
  pose proof (round64_mono _ _ Hq0 Hqq) as Hm.
  unfold progressPercent. rewrite (div_round64 c d Hc Hd), (div_round64 c' d Hc' Hd).
  destruct (round64_nonneg_cases _ Hq0') as [[Ey _]|(ry & Ey & Hry & _)];
    destruct (round64_nonneg_cases _ Hq0) as [[Ex _]|(rx & Ex & Hrx & _)];
    rewrite Ex, Ey in *; try reflexivity; try discriminate Hm.
  - rewrite mul_round64.
    assert (Hrx0 : 0 <= rx).
    { unfold Qcle. rewrite Hrx. apply round_pos_nonneg. exact Hq0. }
    destruct (round64_nonneg_cases _ (scale_nonneg rx Hrx0))
      as [[-> _]|(p & -> & _)]; reflexivity.
  - rewrite !mul_round64. apply leb_Fin in Hm.
    assert (Hrx0 : 0 <= rx).
    { unfold Qcle. rewrite Hrx. apply round_pos_nonneg. exact Hq0. }
    apply round64_mono; [apply scale_nonneg, Hrx0|].
    apply Qcmult_le_compat_r; [exact Hm|discriminate].
Qed.

(** A full challenge stands at exactly 100. *)
Lemma progressPercent_full (d : Qc) :
  0 < d -> progressPercent (Fin d) (Fin d) = of_Z 100.
Proof.
  intros Hd. unfold progressPercent.
  rewrite (div_round64 d d (Qclt_le_weak _ _ Hd) Hd).
  replace (d / d) with 1 by (field; apply pos_nonzero, Hd).
  apply same_number_spec. vm_compute. reflexivity.
Qed.

(** A count below zero never gives a progress above zero. *)
Lemma progressPercent_nonpos (c d : Qc) :
  0 < d -> c <= 0 -> leb (progressPercent (Fin c) (Fin d)) (of_Z 0) = true.
Proof.
  intros Hd Hc. pose proof (pos_nonzero d Hd) as Hd0.
  apply Qcle_lt_or_eq in Hc. destruct Hc as [Hc| ->].
  - assert (Hq : c / d < 0).
    { apply Qcnot_le_lt. intros H.
      apply (Qclt_not_le _ _ Hc).
      replace c with (c / d * d) by (field; exact Hd0).
      replace 0 with (0 * d) by ring.
      apply Qcmult_le_compat_r; [exact H|apply Qclt_le_weak, Hd]. }
    unfold progressPercent, div, zero_valued, value_of.
    rewrite (is_zero_false d Hd0).
    rewrite (is_zero_false c) by (intros ->; exact (Qclt_not_eq _ _ Hc eq_refl)).
    pose proof (round64_neg _ Hq) as Hr.
    destruct (round64 (c / d)) as [|[]| |r]; try discriminate Hr; try reflexivity.
    rewrite mul_round64. unfold of_Z in Hr. apply leb_Fin in Hr.
    apply Qcle_lt_or_eq in Hr. destruct Hr as [Hr| ->]; [|reflexivity].
    apply round64_neg.
    apply Qcnot_le_lt. intros H. apply (Qclt_not_le _ _ Hr).
    apply Qcmult_lt_0_le_reg_r with (z := Qc_of_Z 100); [reflexivity|].
    replace (0 * Qc_of_Z 100) with 0 by ring. exact H.
  - unfold progressPercent.
    rewrite (div_round64 0 d (Qcle_refl _) Hd).
    replace (0 / d) with 0 by (field; exact Hd0). reflexivity.
Qed.

End Unclamped.

(** X1.  For a positive duration the progress never decreases with the
    completed days and is not clamped at either end: it is at least 100
    from the full duration on and above 100 at 4 days of 3, and it is at
    most 0 for a count below zero and below 0 at -1 day of 3.  The growth
    is not strict: two neighbouring counts can round to the same
    progress. *)
Theorem progress_monotone_unclamped (c c' d : Qc) :
  (0 < d)%Qc ->
  ((0 <= c)%Qc -> (c <= c')%Qc ->
     leb (progressPercent (Fin c) (Fin d)) (progressPercent (Fin c') (Fin d)) = true)
  /\ ((d <= c)%Qc -> leb (of_Z 100) (progressPercent (Fin c) (Fin d)) = true)
  /\ ((c <= Qc_of_Z 0)%Qc -> leb (progressPercent (Fin c) (Fin d)) (of_Z 0) = true)
  /\ ltb (of_Z 100) (progressPercent (of_Z 4) (of_Z 3)) = true
  /\ ltb (progressPercent (of_Z (-1)) (of_Z 3)) (of_Z 0) = true
  /\ progressPercent (of_Z 9007199254740952) (of_Z 9007199254740991)
     = progressPercent (of_Z 9007199254740953) (of_Z 9007199254740991).
Proof.
  intros Hd. split; [|split; [|split; [|split; [|split]]]].
  - intros Hc Hcc'. apply progressPercent_mono; assumption.
  - intros Hdc. rewrite <- (progressPercent_full d Hd).
    apply progressPercent_mono; [exact Hd|apply Qclt_le_weak, Hd|exact Hdc].
  - intros Hc. apply progressPercent_nonpos; assumption.
  - vm_compute. reflexivity.
  - vm_compute. reflexivity.
  - apply same_number_spec. vm_compute. reflexivity.
Qed.

Lemma progress_monotone_unclamped_witness :
  leb (of_Z 100) (progressPercent (of_Z 4) (of_Z 3)) = true.
Proof.
  refine (proj1 (proj2 (progress_monotone_unclamped
                          (Qc_of_Z 4) (Qc_of_Z 4) (Qc_of_Z 3) _)) _).
  - reflexivity.
  - unfold Qcle, Qle; simpl; lia.
Defined.

(** ** Catalog lookup *)

Lemma find_template_catalog (t : Template.t) :
  t ∈ challengeTemplates ->
  find_template (Template.type t) = Some t /\ truthy (Template.icon t) = true.
Proof.
  intros Ht. unfold challengeTemplates in Ht.
  repeat (apply elem_of_cons in Ht as [->|Ht]; [split; reflexivity|]).
  apply elem_of_nil in Ht. destruct Ht.
Qed.

(** X2.  The template types of the catalog are pairwise distinct, so a challenge
    whose type is that of a catalog template is drawn with that very
    template: its icon and colour head the card and its colour fills the
    progress bar and the check-in button. *)
Theorem catalog_template_drawn (env : Env) (challenge : Challenge) (t : Template.t) :
  t ∈ challengeTemplates ->
  challenge_type challenge = Template.type t ->
  find_template (challenge_type challenge) = Some t
  /\ hd_error (icons (renderChallenge env challenge))
     = Some (Some (Template.icon t), Some (Template.color t))
  /\ backgrounds (renderChallenge env challenge)
     = VString (Template.color t ++ js "20")
       :: VString (Template.color t)
       :: (if is_completed challenge then [] else [VString (Template.color t)]).
Proof.
  intros Ht Htype. destruct (find_template_catalog t Ht) as [Hfind Hicon].
  rewrite <- Htype in Hfind. split; [exact Hfind|]. split.
  - rewrite icons_of_card, Hfind. cbn [opt_chain or_else hd_error].
    rewrite Hicon. reflexivity.
  - unfold backgrounds, renderChallenge. rewrite Hfind.
    cbn [mounted flat_map app opt_chain add_string of_option].
    rewrite !flat_map_app, !app_nil_r. cbn [flat_map app].
    do 2 f_equal.
    assert (Hb : forall l,
      flat_map (fun m => match m with
                         | View _ styles _ | TouchableOpacity _ styles _ _ _
                         | Text styles _ =>
                             flat_map (fun s => match s with
                                                | BackgroundColor c => [c]
                                                | _ => []
                                                end) styles
                         | _ => []
                         end) (flat_map mounted (map renderBadge l)) = []).
    { induction l as [|b l IH]; [reflexivity|].
      cbn [map flat_map mounted renderBadge app]. exact IH. }
    destruct (0 <? Z.of_nat (length (badges challenge))),
             (is_completed challenge);
      cbn [negb when mounted flat_map app]; rewrite ?app_nil_r, ?Hb; reflexivity.
Qed.

Lemma catalog_template_drawn_witness :
  hd_error (icons (renderChallenge sample_env (sample_challenge "sleep" 2 14 false [])))
  = Some (Some (js "moon"), Some (js "#6366F1")).
Proof.
  refine (proj1 (proj2 (catalog_template_drawn sample_env
            (sample_challenge "sleep" 2 14 false [])
            {| Template.type := js "sleep";
               Template.title := js "Sleep Master Challenge";
               Template.description := js "8 hours of sleep for 14 days";
               Template.duration := of_Z 14;
               Template.icon := js "moon";
               Template.color := js "#6366F1" |} _ _))).
  - do 4 apply list_elem_of_further. apply list_elem_of_here.
  - reflexivity.
Defined.

(** ** What the list shows *)

Ltac eval_styles :=
  cbn [List.filter has_style existsb String.eqb Ascii.eqb Bool.eqb orb app].

Lemma styled_card_self (env : Env) (challenge : Challenge) :
  List.filter (has_style "challengeCard") (mounted (renderChallenge env challenge))
  = [renderChallenge env challenge].
Proof.
  unfold renderChallenge at 1.
  cbn [mounted flat_map app]. rewrite !flat_map_app, !app_nil_r.
  eval_styles. rewrite !List.filter_app. eval_styles.
  f_equal.
  destruct (0 <? Z.of_nat (length (badges challenge))),
           (is_completed challenge);
    cbn [negb when mounted flat_map app]; eval_styles;
    rewrite ?app_nil_r, ?(styled_badges "challengeCard") by reflexivity;
    reflexivity.
Qed.

Lemma styled_cards (env : Env) (l : list Challenge) :
  List.filter (has_style "challengeCard")
    (flat_map mounted (map (renderChallenge env) l))
  = map (renderChallenge env) l.
Proof.
  induction l as [|c l IH]; [reflexivity|].
  cbn [map flat_map]. rewrite List.filter_app, styled_card_self, IH. reflexivity.
Qed.

Lemma styled_templates (name : string) (submitting : bool) (l : list Template.t) :
  String.eqb "templateCard" name = false -> String.eqb "templateIcon" name = false ->
  String.eqb "templateContent" name = false -> String.eqb "templateTitle" name = false ->
  String.eqb "templateDescription" name = false ->
  String.eqb "templateDuration" name = false ->
  List.filter (has_style name) (flat_map mounted (map (renderTemplate submitting) l)) = [].
Proof.
  intros H1 H2 H3 H4 H5 H6. induction l as [|t l IH]; [reflexivity|].
  cbn [map flat_map mounted renderTemplate app List.filter has_style existsb].
  rewrite H1, H2, H3, H4, H5, H6. exact IH.
Qed.

Lemma no_empty_state_in_cards (env : Env) (l : list Challenge) :
  List.filter (has_style "emptyContainer")
    (flat_map mounted (map (renderChallenge env) l)) = [].
Proof.
  induction l as [|c l IH]; [reflexivity|].
  cbn [map flat_map]. rewrite List.filter_app, IH, app_nil_r.
  unfold renderChallenge.
  cbn [mounted flat_map app]. rewrite !flat_map_app, !app_nil_r.
  eval_styles. rewrite !List.filter_app. eval_styles.
  destruct (0 <? Z.of_nat (length (badges c))), (is_completed c);
    cbn [negb when mounted flat_map app]; eval_styles;
    rewrite ?app_nil_r, ?(styled_badges "emptyContainer") by reflexivity;
    reflexivity.
Qed.

(** X3.  Once loading is over the screen shows one card per held challenge, in
    the order of the list, and nothing else styled as a card; the empty
    state is shown exactly when the list is empty. *)
Theorem cards_follow_list (env : Env) (s : State) :
  isLoading s = false ->
  styled "challengeCard" (render env s) = map (renderChallenge env) (challenges s)
  /\ length (styled "emptyContainer" (render env s))
     = match challenges s with [] => 1%nat | _ :: _ => 0%nat end.
Proof.
  intros Hl. unfold styled, render. rewrite Hl.
  destruct (challenges s) as [|c l] eqn:E.
  - cbn [length Nat.eqb map mounted flat_map app].
    destruct (modalVisible s), (checkInModal s), (isSubmitting s);
      cbn [mounted flat_map app]; rewrite ?app_nil_r; eval_styles;
      rewrite ?List.filter_app, ?styled_templates by reflexivity;
      split; reflexivity.
  - replace (length (c :: l) =? 0)%nat with false by reflexivity.
    cbn [mounted flat_map app]. rewrite !app_nil_r. eval_styles.
    rewrite !List.filter_app, !styled_cards, !no_empty_state_in_cards.
    destruct (modalVisible s), (checkInModal s), (isSubmitting s);
      cbn [mounted flat_map app]; rewrite ?app_nil_r; eval_styles;
      rewrite ?List.filter_app, ?styled_templates by reflexivity;
      eval_styles; rewrite ?app_nil_r; split; try reflexivity.
Qed.

Lemma cards_follow_list_witness :
  styled "challengeCard"
    (render sample_env (ui (loaded (sample_challenge "hydration" 1 3 false []))))
  = [renderChallenge sample_env (sample_challenge "hydration" 1 3 false [])].
Proof.
  exact (proj1 (cards_follow_list sample_env
                  (ui (loaded (sample_challenge "hydration" 1 3 false []))) eq_refl)).
Defined.

Lemma styled_badge_nodes (l : list jsstring) :
  List.filter (has_style "badge") (flat_map mounted (map renderBadge l))
  = map renderBadge l.
Proof.
  induction l as [|b l IH]; [reflexivity|].
  cbn [map flat_map mounted app]. unfold renderBadge at 1.
  cbn [mounted flat_map app]. eval_styles. rewrite IH. reflexivity.
Qed.

(** X4.  A card shows one badge node per earned badge, in the order of the
    [badges] array, inside a single container; a challenge without badges
    has no badge container at all. *)
Theorem badges_follow_array (env : Env) (challenge : Challenge) :
  styled "badge" (renderChallenge env challenge) = map renderBadge (badges challenge)
  /\ styled "badgesContainer" (renderChallenge env challenge)
     = match badges challenge with
       | [] => []
       | _ :: _ => [View None [Static "badgesContainer"]
                         (map renderBadge (badges challenge))]
       end.
Proof.
  unfold styled, renderChallenge.
  cbn [mounted flat_map app]. rewrite !flat_map_app, !app_nil_r.
  eval_styles. rewrite !List.filter_app. eval_styles.
  destruct (badges challenge) as [|b l] eqn:Eb.
  - destruct (is_completed challenge); split; reflexivity.
  - replace (0 <? Z.of_nat (length (b :: l))) with true by reflexivity.
    rewrite <- Eb.
    destruct (is_completed challenge);
      cbn [negb when mounted flat_map app]; eval_styles;
      rewrite ?app_nil_r, ?styled_badge_nodes,
              ?(styled_badges "badgesContainer") by reflexivity;
      split; reflexivity.
Qed.

(** ** The creation workflow *)

(** Settling the request sent last resumes its handler in the world it was
    sent from. *)
Lemma settled_send (w : World) (r : request) :
  settled (length (inflight w)) (send r w) = w.
Proof.
  unfold settled, send. cbn [ui inflight alerts console]. rewrite delete_last.
  destruct w; reflexivity.
Qed.

Lemma step_settle_sent (env : Env) (w : World) (r : request) (o : outcome) :
  step env (send r w) (Settle (length (inflight w)) o) = resume r o w.
Proof.
  cbn [step]. replace (inflight (send r w) !! length (inflight w)) with (Some r).
  - rewrite settled_send. reflexivity.
  - cbn [send inflight]. rewrite lookup_app_r, Nat.sub_diag by lia. reflexivity.
Qed.

Lemma create_body_catalog (t : Template.t) :
  t ∈ challengeTemplates ->
  exists q, Template.duration t = Fin q /\ (0 < q)%Qc
    /\ stringify (create_body t)
       = [ (js "challenge_type", JString (Template.type t));
           (js "title", JString (Template.title t));
           (js "description", JString (Template.description t));
           (js "duration_days", JNumber q) ].
Proof.
  intros Ht. unfold challengeTemplates in Ht.
  repeat (apply elem_of_cons in Ht as [->|Ht];
          [eexists; split; [reflexivity|split; reflexivity]|]).
  apply elem_of_nil in Ht. destruct Ht.
Qed.

(** X5.  A press on a template control sends one create request whose body is
    the template verbatim: its type, title, description and its positive
    duration as a number.  Only catalog templates can be pressed. *)
Theorem create_request_verbatim (env : Env) (w0 w1 : World) (t : Template.t) :
  step env w0 (Press (StartChallenge t)) = Some w1 ->
  t ∈ challengeTemplates
  /\ exists q, Template.duration t = Fin q /\ (0 < q)%Qc
     /\ inflight w1
        = inflight w0
          ++ [PostCreate [ (js "challenge_type", JString (Template.type t));
                           (js "title", JString (Template.title t));
                           (js "description", JString (Template.description t));
                           (js "duration_days", JNumber q) ]]
     /\ ui w1 = ui (setIsSubmitting true w0)
     /\ alerts w1 = alerts w0.
Proof.
  intros Hpress. cbn [step] in Hpress.
  destruct (pressable (render env (ui w0)) (StartChallenge t)) eqn:Hen; [|discriminate].
  injection Hpress as <-.
  apply pressable_StartChallenge in Hen as (_ & _ & _ & Ht).
  split; [exact Ht|].
  destruct (create_body_catalog t Ht) as (q & Hq & Hpos & Hbody).
  exists q. split; [exact Hq|]. split; [exact Hpos|].
  cbn [press]. unfold startChallenge. rewrite Hbody. repeat split.
Qed.

Lemma create_request_verbatim_witness :
  exists q,
    inflight (startChallenge no_sugar
                (selecting (sample_challenge "hydration" 1 3 false [])))
    = [PostCreate [ (js "challenge_type", JString (js "no_sugar"));
                    (js "title", JString (js "No Sugar Week"));
                    (js "description", JString (js "Avoid added sugars for 7 days"));
                    (js "duration_days", JNumber q) ]].
Proof.
  destruct (create_request_verbatim sample_env
              (selecting (sample_challenge "hydration" 1 3 false []))
              (startChallenge no_sugar
                 (selecting (sample_challenge "hydration" 1 3 false [])))
              no_sugar eq_refl)
    as (_ & q & _ & _ & Hsent & _).
  exists q. exact Hsent.
Defined.

Ltac press_enabled H :=
  cbn [step] in H;
  match type of H with
  | (if pressable ?n ?a then _ else _) = _ =>
      let Hen := fresh "Hen" in
      destruct (pressable n a) eqn:Hen; [|discriminate H];
      injection H as <-
  end.

(** X6.  A creation that succeeds closes the selection modal, clears the
    submitting flag, raises the success alert and issues one list fetch;
    the held list itself is not touched until that fetch is answered. *)
Theorem create_success_reloads (env : Env) (w0 w1 : World) (t : Template.t) :
  step env w0 (Press (StartChallenge t)) = Some w1 ->
  exists w2,
    step env w1 (Settle (length (inflight w0)) (Fulfilled Created)) = Some w2
    /\ ui w2 = ui (setModalVisible false w0)
    /\ challenges (ui w2) = challenges (ui w0)
    /\ inflight w2 = inflight w0 ++ [GetActive]
    /\ alerts w2 = alerts w0 ++ [success_alert]
    /\ console w2 = console w0.
Proof.
  intros Hpress. press_enabled Hpress.
  apply pressable_StartChallenge in Hen as (_ & _ & Hs & _).
  cbn [press]. unfold startChallenge.
  change (length (inflight w0))
    with (length (inflight (setIsSubmitting true w0))).
  rewrite step_settle_sent. cbn [resume]. eexists. split; [reflexivity|].
  split; [|repeat split].
  destruct w0 as [s fl al cl]. cbn [ui] in Hs. destruct s. simpl in *.
  subst. reflexivity.
Qed.

(** X7.  A creation that fails leaves every state cell as it was before the
    press, the selection modal still open; it raises one error alert with
    the backend's detail or the fallback text, issues no list fetch, and
    the same template can be pressed again, sending the same request. *)
Theorem create_failure_keeps_modal (env : Env) (w0 w1 : World) (t : Template.t)
    (error : AxiosError) :
  step env w0 (Press (StartChallenge t)) = Some w1 ->
  exists w2,
    step env w1 (Settle (length (inflight w0)) (Rejected error)) = Some w2
    /\ ui w2 = ui w0
    /\ modalVisible (ui w2) = true
    /\ inflight w2 = inflight w0
    /\ alerts w2 = alerts w0 ++ [error_alert error "Failed to start challenge"]
    /\ exists w3,
         step env w2 (Press (StartChallenge t)) = Some w3
         /\ inflight w3 = inflight w1.
Proof.
  intros Hpress. press_enabled Hpress.
  pose proof Hen as Hen'.
  apply pressable_StartChallenge in Hen' as (_ & Hm & Hs & _).
  cbn [press]. unfold startChallenge.
  change (length (inflight w0))
    with (length (inflight (setIsSubmitting true w0))).
  rewrite step_settle_sent. cbn [resume].
  set (w2 := startChallenge_rejected error (setIsSubmitting true w0)).
  assert (Hui : ui w2 = ui w0).
  { subst w2. destruct w0 as [s fl al cl]. cbn [ui] in *. destruct s. simpl in *.
    subst. reflexivity. }
  exists w2. split; [reflexivity|]. split; [exact Hui|].
  split; [rewrite Hui; exact Hm|]. split; [reflexivity|]. split; [reflexivity|].
  exists (press (StartChallenge t) w2). split.
  - cbn [step]. rewrite Hui, Hen. reflexivity.
  - reflexivity.
Qed.

(** ** A fulfilled check-in *)

(** X8.  A check-in that is answered with a success status closes the
    check-in modal, clears the notes and the submitting flag and issues one
    list fetch; the held list is not patched from the response and the
    selected challenge stays selected.  It then raises the alert built from
    the response; when the response carries no [badges], building that
    alert throws inside the [try] block, after the modal is closed and the
    reload issued, and the [catch] branch raises 'Failed to check in'
    instead. *)
Theorem checkin_success_reloads (env : Env) (w0 w1 : World)
    (selected : Challenge) (data : option CheckInResult) :
  selectedChallenge (ui w0) = Some selected ->
  step env w0 (Press HandleCheckIn) = Some w1 ->
  exists w2,
    step env w1 (Settle (length (inflight w0)) (Fulfilled (checkin_response data)))
    = Some w2
    /\ ui w2 = ui (setCheckInNotes [] (setCheckInModal false w0))
    /\ challenges (ui w2) = challenges (ui w0)
    /\ selectedChallenge (ui w2) = Some selected
    /\ inflight w2 = inflight w0 ++ [GetActive]
    /\ alerts w2
       = alerts w0
         ++ [match data with
             | Some data => checkin_alert data
             | None => error_alert TypeError "Failed to check in"
             end]
    /\ pressable (render env (ui w2)) HandleCheckIn = false.
Proof.
  intros Hsel Hpress. press_enabled Hpress.
  apply pressable_HandleCheckIn in Hen as (_ & _ & Hs).
  cbn [press]. unfold handleCheckIn at 1. rewrite Hsel.
  change (length (inflight w0))
    with (length (inflight (setIsSubmitting true w0))).
  rewrite step_settle_sent.
  set (w2 := handleCheckIn_fulfilled data (setIsSubmitting true w0)).
  assert (Hui : ui w2 = ui (setCheckInNotes [] (setCheckInModal false w0))).
  { subst w2. destruct w0 as [s fl al cl]. cbn [ui] in *. destruct s. simpl in *.
    subst. destruct data; reflexivity. }
  exists w2. split; [destruct data; reflexivity|]. split; [exact Hui|].
  split; [rewrite Hui; reflexivity|]. split; [rewrite Hui; exact Hsel|].
  split; [destruct data; reflexivity|]. split; [destruct data; reflexivity|].
  destruct (pressable (render env (ui w2)) HandleCheckIn) eqn:Hen; [|reflexivity].
  apply pressable_HandleCheckIn in Hen as (_ & Hm & _).
  rewrite Hui in Hm. discriminate Hm.
Qed.

Lemma create_success_reloads_witness :
  exists w2,
    step sample_env
         (startChallenge no_sugar (selecting (sample_challenge "hydration" 1 3 false [])))
         (Settle 0 (Fulfilled Created)) = Some w2
    /\ inflight w2 = [GetActive] /\ alerts w2 = [success_alert].
Proof.
  destruct (create_success_reloads sample_env
              (selecting (sample_challenge "hydration" 1 3 false []))
              (startChallenge no_sugar
                 (selecting (sample_challenge "hydration" 1 3 false [])))
              no_sugar eq_refl)
    as (w2 & Hstep & _ & _ & Hfl & Hal & _).
  exists w2. split; [exact Hstep|]. split; [exact Hfl|exact Hal].
Defined.

Lemma create_failure_keeps_modal_witness :
  exists w2,
    step sample_env
         (startChallenge no_sugar (selecting (sample_challenge "hydration" 1 3 false [])))
         (Settle 0 (Rejected {| detail := VUndefined |})) = Some w2
    /\ ui w2 = ui (selecting (sample_challenge "hydration" 1 3 false []))
    /\ alerts w2 = [error_alert {| detail := VUndefined |} "Failed to start challenge"].
Proof.
  destruct (create_failure_keeps_modal sample_env
              (selecting (sample_challenge "hydration" 1 3 false []))
              (startChallenge no_sugar
                 (selecting (sample_challenge "hydration" 1 3 false [])))
              no_sugar {| detail := VUndefined |} eq_refl)
    as (w2 & Hstep & Hui & _ & _ & Hal & _).
  exists w2. split; [exact Hstep|]. split; [exact Hui|exact Hal].
Defined.

Lemma checkin_success_reloads_witness :
  exists w2,
    step sample_env
         (handleCheckIn (checking_in (sample_challenge "hydration" 1 3 false [])
                                     (js "ok")))
         (Settle 0 (Fulfilled CheckedInWithoutBadges)) = Some w2
    /\ checkInNotes (ui w2) = [] /\ checkInModal (ui w2) = false
    /\ inflight w2 = [GetActive]
    /\ alerts w2 = [error_alert TypeError "Failed to check in"].
Proof.
  destruct (checkin_success_reloads sample_env
              (checking_in (sample_challenge "hydration" 1 3 false []) (js "ok"))
              (handleCheckIn
                 (checking_in (sample_challenge "hydration" 1 3 false []) (js "ok")))
              (sample_challenge "hydration" 1 3 false [])
              None eq_refl eq_refl)
    as (w2 & Hstep & Hui & _ & _ & Hfl & Hal & _).
  exists w2. split; [exact Hstep|]. split; [rewrite Hui; reflexivity|].
  split; [rewrite Hui; reflexivity|]. split; [exact Hfl|exact Hal].
Defined.

(** ** Answers to the list fetch *)

(** A fulfilled list fetch replaces the held list by the answer as a whole
    and ends loading; it changes no other state cell, raises no alert and
    sends nothing. *)
Theorem load_success_replaces_list (env : Env) (w : World) (i : nat)
    (data : list Challenge) :
  inflight w !! i = Some GetActive ->
  exists w',
    step env w (Settle i (Fulfilled (ActiveChallenges data))) = Some w'
    /\ challenges (ui w') = data
    /\ ui w' = ui (setIsLoading false (setChallenges data w))
    /\ inflight w' = delete i (inflight w)
    /\ alerts w' = alerts w
    /\ console w' = console w.
Proof.
  intros Hreq. eexists. split; [cbn [step]; rewrite Hreq; reflexivity|].
  repeat split.
Qed.

Lemma load_success_replaces_list_witness :
  exists w',
    step sample_env mount
         (Settle 0 (Fulfilled (ActiveChallenges
                                 [sample_challenge "hydration" 0 3 false []])))
    = Some w'
    /\ challenges (ui w') = [sample_challenge "hydration" 0 3 false []].
Proof.
  destruct (load_success_replaces_list sample_env mount 0
              [sample_challenge "hydration" 0 3 false []] eq_refl)
    as (w' & Hstep & Hlist & _).
  exists w'. split; [exact Hstep|exact Hlist].
Defined.

(** X9.  Answers are applied in the order they arrive, not in the order the
    fetches were issued: when two fetches are in flight and the answer to
    the earlier one arrives last, the list ends up holding the earlier
    answer. *)
Theorem late_answer_overwrites (env : Env) (w : World) (i j : nat)
    (older newer : list Challenge) :
  inflight w !! i = Some GetActive ->
  inflight w !! j = Some GetActive ->
  (i < j)%nat ->
  exists w',
    run env w [ Settle j (Fulfilled (ActiveChallenges newer));
                Settle i (Fulfilled (ActiveChallenges older)) ] = Some w'
    /\ challenges (ui w') = older
    /\ inflight w' = delete i (delete j (inflight w)).
Proof.
  intros Hi Hj Hlt. eexists. split.
  { cbn [run step]. rewrite Hj. cbn [resume].
    cbn [loadChallenges_fulfilled setIsLoading setChallenges with_ui settled inflight].
    rewrite list_lookup_delete_lt, Hi by exact Hlt. reflexivity. }
  split; reflexivity.
Qed.

Lemma late_answer_overwrites_witness :
  let w := loadChallenges (loadChallenges (loaded (sample_challenge "hydration" 1 3 false []))) in
  exists w',
    run sample_env w
        [ Settle 1 (Fulfilled (ActiveChallenges
                                 [sample_challenge "hydration" 2 3 false []]));
          Settle 0 (Fulfilled (ActiveChallenges
                                 [sample_challenge "hydration" 1 3 false []])) ]
    = Some w'
    /\ challenges (ui w') = [sample_challenge "hydration" 1 3 false []].
Proof.
  cbv zeta.
  destruct (late_answer_overwrites sample_env
              (loadChallenges (loadChallenges
                 (loaded (sample_challenge "hydration" 1 3 false []))))
              0 1 [sample_challenge "hydration" 1 3 false []]
              [sample_challenge "hydration" 2 3 false []]
              eq_refl eq_refl (le_n 1))
    as (w' & Hrun & Hlist & _).
  exists w'. split; [exact Hrun|exact Hlist].
Defined.

(** ** The loading phase *)

Lemma controls_loading (env : Env) (s : State) :
  isLoading s = true -> controls (render env s) = [] /\ inputs (render env s) = [].
Proof. intros H. unfold render. rewrite H. split; reflexivity. Qed.

Lemma resume_loading (r : request) (o : outcome) (w w' : World) :
  resume r o w = Some w' ->
  isLoading (ui w') = match r with GetActive => false | _ => isLoading (ui w) end.
Proof.
  destruct r as [|body|body], o as [[data| |data|]|error];
    intros H; try discriminate H; injection H as <-; reflexivity.
Qed.

Lemma press_loading (a : action) (w : World) :
  isLoading (ui (press a w)) = isLoading (ui w).
Proof.
  destruct a; try reflexivity.
  cbn [press]. unfold handleCheckIn.
  destruct (selectedChallenge (ui w)); reflexivity.
Qed.

Lemma step_loading (env : Env) (w : World) (ev : event) (w' : World) :
  step env w ev = Some w' ->
  isLoading (ui w) = false -> isLoading (ui w') = false.
Proof.
  intros Hstep Hl. destruct ev as [a|text|i o]; cbn [step] in Hstep.
  - destruct (pressable _ _); [|discriminate]. injection Hstep as <-.
    rewrite press_loading. exact Hl.
  - destruct (inputs _); [discriminate|]. injection Hstep as <-. exact Hl.
  - destruct (inflight w !! i) as [r|]; [|discriminate].
    rewrite (resume_loading _ _ _ _ Hstep). destruct r; [reflexivity| |]; exact Hl.
Qed.

(** X10.  The spinner is shown only before the first list fetch is answered: a
    reachable state that is loading is the state right after mounting, with
    nothing to press or type into, and once loading has ended no event
    brings it back. *)
Theorem loading_only_at_start (w : World) :
  reachable w ->
  (isLoading (ui w) = true ->
     w = mount /\ forall env, controls (render env (ui w)) = []
                              /\ inputs (render env (ui w)) = [])
  /\ (isLoading (ui w) = false ->
      forall env ev w', step env w ev = Some w' -> isLoading (ui w') = false).
Proof.
  intros Hreach. split.
  - intros Hl. split; [|intros env; apply controls_loading, Hl].
    induction Hreach as [|env w ev w' Hreach IH Hstep]; [reflexivity|].
    destruct (isLoading (ui w)) eqn:Hw.
    + specialize (IH eq_refl). subst w. exfalso.
      destruct ev as [a|text|i o]; cbn [step] in Hstep.
      * destruct (pressable _ a) eqn:Hen; [|discriminate].
        apply pressable_spec in Hen.
        rewrite (proj1 (controls_loading env (ui mount) eq_refl)) in Hen.
        apply elem_of_nil in Hen. exact Hen.
      * rewrite (proj2 (controls_loading env (ui mount) eq_refl)) in Hstep.
        discriminate.
      * destruct i as [|i]; [|discriminate].
        cbn [mount loadChallenges send inflight app lookup list_lookup] in Hstep.
        rewrite (resume_loading _ _ _ _ Hstep) in Hl. discriminate.
    + rewrite (step_loading _ _ _ _ Hstep Hw) in Hl. discriminate.
  - intros Hl env ev w' Hstep. exact (step_loading _ _ _ _ Hstep Hl).
Qed.

Lemma loading_only_at_start_witness :
  controls (render sample_env (ui mount)) = [].
Proof.
  exact (proj1 (proj2 (proj1 (loading_only_at_start mount reachable_mount) eq_refl)
                  sample_env)).
Defined.

(** ** What can be selected and what is sent *)

Lemma selection_press (env : Env) (w : World) (a : action) :
  selection_sound (ui w) ->
  pressable (render env (ui w)) a = true ->
  selection_sound (ui (press a w)).
Proof.
  unfold selection_sound. intros [Hopen Hdone] Hen.
  destruct a; cbn [press]; try (split; [exact Hopen|exact Hdone]).
  - apply pressable_OpenCheckIn in Hen as (_ & _ & Hc).
    cbn [setCheckInModal setSelectedChallenge with_ui ui checkInModal
         selectedChallenge].
    split; [intros _; eexists; reflexivity|]. intros c [= <-]. exact Hc.
  - cbn [setCheckInModal with_ui ui checkInModal selectedChallenge].
    split; [discriminate|exact Hdone].
  - unfold handleCheckIn. destruct (selectedChallenge (ui w)) eqn:E.
    + cbn [send setIsSubmitting with_ui ui checkInModal selectedChallenge].
      rewrite E. split; [exact Hopen|exact Hdone].
    + rewrite E. split; [exact Hopen|exact Hdone].
Qed.

Lemma selection_resume (r : request) (o : outcome) (w w' : World) :
  resume r o w = Some w' ->
  selection_sound (ui w) -> selection_sound (ui w').
Proof.
  unfold selection_sound. intros Hres [Hopen Hdone].
  destruct r as [|body|body], o as [[data| |data|]|error];
    try discriminate Hres; injection Hres as <-;
    cbn [loadChallenges_fulfilled loadChallenges_rejected startChallenge_fulfilled
         startChallenge_rejected handleCheckIn_fulfilled handleCheckIn_rejected
         handleCheckIn_catch
         loadChallenges setChallenges setIsLoading setModalVisible setCheckInModal
         setCheckInNotes setIsSubmitting with_ui console_error Alert_alert send
         ui checkInModal selectedChallenge];
    (split; [first [exact Hopen|discriminate]|exact Hdone]).
Qed.

Lemma selection_reachable (w : World) : reachable w -> selection_sound (ui w).
Proof.
  induction 1 as [|env w ev w' Hreach IH Hstep].
  - split; [discriminate|discriminate].
  - destruct ev as [a|text|i o]; cbn [step] in Hstep.
    + destruct (pressable _ a) eqn:Hen; [|discriminate]. injection Hstep as <-.
      eapply selection_press; eassumption.
    + destruct (inputs _); [discriminate|]. injection Hstep as <-. exact IH.
    + destruct (inflight w !! i); [|discriminate].
      eapply selection_resume; [exact Hstep|exact IH].
Qed.

(** X11.  In every reachable state an open check-in modal has a selected
    challenge whose snapshot is not completed, so a press on the enabled
    submit control never takes the handler's early return: it sets the
    submitting flag and sends one check-in request for that challenge. *)
Theorem submit_always_sends (env : Env) (w w' : World) :
  reachable w ->
  step env w (Press HandleCheckIn) = Some w' ->
  exists selected,
    selectedChallenge (ui w) = Some selected
    /\ is_completed selected = false
    /\ inflight w'
       = inflight w
         ++ [PostCheckIn (stringify (checkin_body selected (checkInNotes (ui w))))]
    /\ isSubmitting (ui w') = true.
Proof.
  intros Hreach Hpress. press_enabled Hpress.
  apply pressable_HandleCheckIn in Hen as (_ & Hm & _).
  destruct (selection_reachable w Hreach) as [Hopen Hdone].
  destruct (Hopen Hm) as [selected Hsel]. exists selected.
  split; [exact Hsel|]. split; [exact (Hdone _ Hsel)|].
  cbn [press]. unfold handleCheckIn. rewrite Hsel. split; reflexivity.
Qed.

Lemma issued_press (env : Env) (w : World) (a : action) :
  selection_sound (ui w) ->
  Forall issued_by_screen (inflight w) ->
  pressable (render env (ui w)) a = true ->
  Forall issued_by_screen (inflight (press a w)).
Proof.
  intros [_ Hdone] Hall Hen. destruct a; cbn [press]; try exact Hall.
  - apply pressable_StartChallenge in Hen as (_ & _ & _ & Ht).
    unfold startChallenge. cbn [send inflight setIsSubmitting with_ui].
    apply Forall_app. split; [exact Hall|].
    constructor; [|constructor]. exists template. split; [exact Ht|reflexivity].
  - unfold handleCheckIn. destruct (selectedChallenge (ui w)) as [sel|] eqn:E;
      [|exact Hall].
    cbn [send inflight setIsSubmitting with_ui]. apply Forall_app.
    split; [exact Hall|]. constructor; [|constructor].
    exists sel, (checkInNotes (ui w)). split; [exact (Hdone _ eq_refl)|reflexivity].
Qed.

Lemma issued_resume (r : request) (o : outcome) (w w' : World) :
  resume r o w = Some w' ->
  Forall issued_by_screen (inflight w) ->
  Forall issued_by_screen (inflight w').
Proof.
  intros Hres Hall.
  destruct r as [|body|body], o as [[data| |data|]|error];
    try discriminate Hres; injection Hres as <-;
    cbn [loadChallenges_fulfilled loadChallenges_rejected startChallenge_fulfilled
         startChallenge_rejected handleCheckIn_fulfilled handleCheckIn_rejected
         handleCheckIn_catch
         loadChallenges setChallenges setIsLoading setModalVisible setCheckInModal
         setCheckInNotes setIsSubmitting with_ui console_error Alert_alert send
         inflight];
    try exact Hall;
    (apply Forall_app; split; [exact Hall|constructor; [exact I|constructor]]).
Qed.

(** X12.  Every request in flight in a reachable state was built by the screen's
    own handlers: a create request carries a catalog template verbatim,
    and a check-in request carries the id and trimmed notes of a challenge
    that was not completed when it was selected. *)
Theorem requests_issued_by_screen (w : World) :
  reachable w -> Forall issued_by_screen (inflight w).
Proof.
  induction 1 as [|env w ev w' Hreach IH Hstep].
  - constructor; [exact I|constructor].
  - pose proof (selection_reachable w Hreach) as Hsel.
    destruct ev as [a|text|i o]; cbn [step] in Hstep.
    + destruct (pressable _ a) eqn:Hen; [|discriminate]. injection Hstep as <-.
      eapply issued_press; eassumption.
    + destruct (inputs _); [discriminate|]. injection Hstep as <-. exact IH.
    + destruct (inflight w !! i); [|discriminate].
      eapply issued_resume; [exact Hstep|].
      cbn [settled inflight]. apply Forall_delete. exact IH.
Qed.

Lemma reachable_loaded (challenge : Challenge) : reachable (loaded challenge).
Proof.
  apply (reachable_step sample_env mount
           (Settle 0 (Fulfilled (ActiveChallenges [challenge])))).
  - apply reachable_mount.
  - reflexivity.
Qed.

Lemma inputs_badges (l : list jsstring) :
  flat_map inputs (map renderBadge l) = [].
Proof. induction l as [|b l IH]; [reflexivity|]. simpl. exact IH. Qed.

Lemma inputs_cards (env : Env) (l : list Challenge) :
  flat_map inputs (map (renderChallenge env) l) = [].
Proof.
  induction l as [|c l IH]; [reflexivity|].
  cbn [map flat_map]. rewrite IH, app_nil_r. unfold renderChallenge.
  cbn [inputs flat_map app]. rewrite !flat_map_app.
  destruct (0 <? Z.of_nat (length (badges c))), (is_completed c);
    cbn [negb when inputs flat_map app]; rewrite ?inputs_badges; reflexivity.
Qed.

Lemma inputs_templates (submitting : bool) (l : list Template.t) :
  flat_map inputs (map (renderTemplate submitting) l) = [].
Proof. induction l as [|t l IH]; [reflexivity|]. cbn [map flat_map]. exact IH. Qed.

(** The notes input is mounted exactly while the check-in modal is open on
    the loaded screen, and shows the notes held in the state. *)
Lemma inputs_render (env : Env) (s : State) :
  inputs (render env s)
  = if isLoading s then []
    else if checkInModal s then [checkInNotes s] else [].
Proof.
  unfold render. destruct (isLoading s); [reflexivity|].
  cbn [inputs flat_map app]. rewrite inputs_templates.
  destruct (length (challenges s) =? 0)%nat.
  - destruct (modalVisible s), (checkInModal s), (isSubmitting s); reflexivity.
  - rewrite inputs_cards.
    destruct (modalVisible s), (checkInModal s), (isSubmitting s); reflexivity.
Qed.

Lemma reachable_checking_in (challenge : Challenge) (notes : jsstring) :
  is_completed challenge = false -> reachable (checking_in challenge notes).
Proof.
  intros Hdone.
  apply (reachable_step sample_env (press (OpenCheckIn challenge) (loaded challenge))
           (ChangeText notes)).
  - apply (reachable_step sample_env (loaded challenge) (Press (OpenCheckIn challenge))).
    + apply reachable_loaded.
    + cbn [step].
      replace (pressable (render sample_env (ui (loaded challenge)))
                 (OpenCheckIn challenge)) with true; [reflexivity|].
      symmetry. apply pressable_OpenCheckIn.
      split; [reflexivity|]. split; [apply list_elem_of_here|exact Hdone].
  - cbn [step]. rewrite inputs_render. reflexivity.
Qed.

Lemma submit_always_sends_witness :
  exists selected,
    selectedChallenge
      (ui (checking_in (sample_challenge "hydration" 1 3 false []) (js " ok ")))
    = Some selected
    /\ is_completed selected = false.
Proof.
  destruct (submit_always_sends sample_env
              (checking_in (sample_challenge "hydration" 1 3 false []) (js " ok "))
              (handleCheckIn
                 (checking_in (sample_challenge "hydration" 1 3 false []) (js " ok ")))
              (reachable_checking_in (sample_challenge "hydration" 1 3 false [])
                 (js " ok ") eq_refl)
              eq_refl)
    as (selected & Hsel & Hdone & _).
  exists selected. split; [exact Hsel|exact Hdone].
Defined.

Lemma requests_issued_by_screen_witness :
  Forall issued_by_screen
    (inflight (handleCheckIn
                 (checking_in (sample_challenge "hydration" 1 3 false []) (js " ok ")))).
Proof.
  apply requests_issued_by_screen.
  apply (reachable_step sample_env
           (checking_in (sample_challenge "hydration" 1 3 false []) (js " ok "))
           (Press HandleCheckIn)).
  - apply reachable_checking_in. reflexivity.
  - reflexivity.
Defined.

(** ** The flag can always be cleared *)

Lemma mutating_inflight_lookup (w : World) :
  (0 < mutating_inflight w)%nat ->
  exists i r, inflight w !! i = Some r /\ mutating r = true.
Proof.
  unfold mutating_inflight. intros Hpos.
  destruct (filter (fun r => mutating r = true) (inflight w)) as [|r l] eqn:E;
    [simpl in Hpos; lia|].
  assert (Hin : r ∈ filter (fun r => mutating r = true) (inflight w))
    by (rewrite E; apply list_elem_of_here).
  apply list_elem_of_filter in Hin as [Hm Hin].
  apply list_elem_of_lookup in Hin as [i Hi]. exists i, r. auto.
Qed.

(** X13.  The submitting flag never sticks: in a reachable state where it is set,
    exactly one create or check-in request is still in flight; that request
    can always be settled by a failure, and whichever way it settles, the
    flag is cleared and no create or check-in request remains in flight. *)
Theorem flag_never_sticks (w : World) :
  reachable w ->
  isSubmitting (ui w) = true ->
  exists i r,
    inflight w !! i = Some r /\ mutating r = true
    /\ (forall env error,
         exists w', step env w (Settle i (Rejected error)) = Some w'
                    /\ isSubmitting (ui w') = false
                    /\ mutating_inflight w' = 0%nat)
    /\ (forall env o w',
         step env w (Settle i o) = Some w' ->
         isSubmitting (ui w') = false /\ mutating_inflight w' = 0%nat).
Proof.
  intros Hreach Hs. pose proof (flag_tracks_reachable w Hreach) as Hinv.
  pose proof Hinv as Hflag.
  unfold flag_tracks_requests in Hinv. rewrite Hs in Hinv.
  destruct (mutating_inflight_lookup w) as (i & r & Hi & Hm); [lia|].
  assert (Hany : forall env o w',
             step env w (Settle i o) = Some w' ->
             isSubmitting (ui w') = false /\ mutating_inflight w' = 0%nat).
  { intros env o w' Hstep. cbn [step] in Hstep. rewrite Hi in Hstep.
    destruct (flag_tracks_settle w i r o w' Hflag Hi Hstep) as [_ H].
    exact (H Hm). }
  exists i, r. split; [exact Hi|]. split; [exact Hm|]. split; [|exact Hany].
  intros env error.
  assert (Hres : exists w', resume r (Rejected error) (settled i w) = Some w').
  { destruct r; eexists; reflexivity. }
  destruct Hres as [w' Hres]. exists w'.
  assert (Hstep : step env w (Settle i (Rejected error)) = Some w')
    by (cbn [step]; rewrite Hi; exact Hres).
  split; [exact Hstep|]. exact (Hany env _ w' Hstep).
Qed.

Lemma flag_never_sticks_witness :
  exists i r,
    inflight (handleCheckIn
                (checking_in (sample_challenge "hydration" 1 3 false []) (js " ok ")))
    !! i = Some r
    /\ mutating r = true.
Proof.
  destruct (flag_never_sticks
              (handleCheckIn
                 (checking_in (sample_challenge "hydration" 1 3 false []) (js " ok "))))
    as (i & r & Hi & Hm & _).
  - apply (reachable_step sample_env
             (checking_in (sample_challenge "hydration" 1 3 false []) (js " ok "))
             (Press HandleCheckIn)).
    + apply reachable_checking_in. reflexivity.
    + reflexivity.
  - reflexivity.
  - exists i, r. split; [exact Hi|exact Hm].
Defined.

(** ** What each event can change *)

(** X14.  The held challenge list is never edited locally: the only event that
    changes it is a fulfilled list fetch, which replaces it by the
    answer. *)
Theorem list_changes_only_on_answer (env : Env) (w : World) (ev : event)
    (w' : World) :
  step env w ev = Some w' ->
  challenges (ui w') = challenges (ui w)
  \/ exists i data,
       ev = Settle i (Fulfilled (ActiveChallenges data))
       /\ inflight w !! i = Some GetActive
       /\ challenges (ui w') = data.
Proof.
  intros Hstep. destruct ev as [a|text|i o]; cbn [step] in Hstep.
  - destruct (pressable _ a); [|discriminate]. injection Hstep as <-. left.
    destruct a; try reflexivity. cbn [press]. unfold handleCheckIn.
    destruct (selectedChallenge (ui w)); reflexivity.
  - destruct (inputs _); [discriminate|]. injection Hstep as <-. left. reflexivity.
  - destruct (inflight w !! i) as [r|] eqn:Hi; [|discriminate].
    destruct r as [|body|body], o as [[data| |data|]|error];
      try discriminate Hstep; injection Hstep as <-;
      try (left; reflexivity).
    right. exists i, data. auto.
Qed.

Lemma list_changes_only_on_answer_witness :
  challenges (ui (handleCheckIn
                    (checking_in (sample_challenge "hydration" 1 3 false []) [])))
  = [sample_challenge "hydration" 1 3 false []].
Proof.
  destruct (list_changes_only_on_answer sample_env
              (checking_in (sample_challenge "hydration" 1 3 false []) [])
              (Press HandleCheckIn)
              (handleCheckIn
                 (checking_in (sample_challenge "hydration" 1 3 false []) []))
              eq_refl) as [H|(i & data & Hev & _)].
  - exact H.
  - discriminate Hev.
Defined.

(** X15.  The notes change only when the user edits them or when a check-in is
    fulfilled, which clears them; closing the modal or opening it for
    another challenge keeps what was typed.  The selected challenge changes
    only by a press on the check-in control of a card of the held list
    whose challenge is not completed, and is never cleared. *)
Theorem notes_and_selection_frame (env : Env) (w : World) (ev : event)
    (w' : World) :
  step env w ev = Some w' ->
  (checkInNotes (ui w') = checkInNotes (ui w)
   \/ (exists text, ev = ChangeText text /\ checkInNotes (ui w') = text)
   \/ (exists i data, ev = Settle i (Fulfilled (checkin_response data))
                      /\ checkInNotes (ui w') = []))
  /\ (selectedChallenge (ui w') = selectedChallenge (ui w)
      \/ exists c, ev = Press (OpenCheckIn c)
                   /\ c ∈ challenges (ui w) /\ is_completed c = false
                   /\ selectedChallenge (ui w') = Some c).
Proof.
  intros Hstep. destruct ev as [a|text|i o]; cbn [step] in Hstep.
  - destruct (pressable _ a) eqn:Hen; [|discriminate]. injection Hstep as <-.
    destruct a; try (split; left; reflexivity).
    + apply pressable_OpenCheckIn in Hen as (_ & Hin & Hdone).
      split; [left; reflexivity|]. right. exists challenge. auto.
    + cbn [press]. unfold handleCheckIn.
      destruct (selectedChallenge (ui w)) eqn:E; split; left;
        cbn [send setIsSubmitting with_ui ui selectedChallenge checkInNotes];
        auto.
  - destruct (inputs _); [discriminate|]. injection Hstep as <-.
    split; [right; left; exists text; auto|left; reflexivity].
  - destruct (inflight w !! i) as [r|] eqn:Hi; [|discriminate].
    destruct r as [|body|body], o as [[data| |data|]|error];
      try discriminate Hstep; injection Hstep as <-;
      try (split; left; reflexivity).
    + split; [right; right; exists i, (Some data); auto|left; reflexivity].
    + split; [right; right; exists i, None; auto|left; reflexivity].
Qed.

Lemma notes_and_selection_frame_witness :
  checkInNotes (ui (press CloseCheckIn
                      (checking_in (sample_challenge "hydration" 1 3 false [])
                                   (js "kept"))))
  = js "kept".
Proof.
  destruct (notes_and_selection_frame sample_env
              (checking_in (sample_challenge "hydration" 1 3 false []) (js "kept"))
              (Press CloseCheckIn)
              (press CloseCheckIn
                 (checking_in (sample_challenge "hydration" 1 3 false []) (js "kept")))
              eq_refl) as [[H|[(text & Hev & _)|(i & data & Hev & _)]] _].
  - exact H.
  - discriminate Hev.
  - discriminate Hev.
Defined.

Lemma loads_delete_le (l : list request) (i : nat) :
  (length (filter (fun r => r = GetActive) (delete i l))
   <= length (filter (fun r => r = GetActive) l))%nat.
Proof.
  revert i. induction l as [|a l IH]; intros i; [destruct i; reflexivity|].
  destruct i as [|i].
  - cbn [delete list_delete]. rewrite filter_cons.
    destruct (decide (a = GetActive)); simpl; lia.
  - change (delete (S i) (a :: l)) with (a :: delete i l).
    rewrite !filter_cons. specialize (IH i).
    destruct (decide (a = GetActive)); simpl; lia.
Qed.

(** X16.  Alerts are raised, one at a time, only when a create or check-in
    request settles, and a list fetch is issued only when such a request
    is fulfilled: presses, edits and answers to list fetches raise no alert
    and issue no list fetch. *)
Theorem alerts_and_fetches_frame (env : Env) (w : World) (ev : event)
    (w' : World) :
  step env w ev = Some w' ->
  (alerts w' = alerts w /\ loads_inflight w' <= loads_inflight w)%nat
  \/ exists i r o a,
       ev = Settle i o /\ inflight w !! i = Some r /\ mutating r = true
       /\ alerts w' = alerts w ++ [a]
       /\ inflight w'
          = delete i (inflight w)
            ++ match o with Fulfilled _ => [GetActive] | Rejected _ => [] end.
Proof.
  intros Hstep. destruct ev as [a|text|i o]; cbn [step] in Hstep.
  - destruct (pressable _ a); [|discriminate]. injection Hstep as <-. left.
    rewrite press_loads. split; [|lia].
    destruct a; try reflexivity. cbn [press]. unfold handleCheckIn.
    destruct (selectedChallenge (ui w)); reflexivity.
  - destruct (inputs _); [discriminate|]. injection Hstep as <-. left.
    split; [reflexivity|]. unfold loads_inflight. cbn [setCheckInNotes with_ui inflight].
    lia.
  - destruct (inflight w !! i) as [r|] eqn:Hi; [|discriminate].
    destruct r as [|body|body], o as [[data| |data|]|error];
      try discriminate Hstep; injection Hstep as <-.
    1,2: left; split; [reflexivity|]; unfold loads_inflight;
         cbn [loadChallenges_fulfilled loadChallenges_rejected setChallenges
              setIsLoading with_ui console_error settled inflight];
         apply loads_delete_le.
    all: right; eexists i, _, _, _; split; [reflexivity|];
         split; [exact Hi|]; split; [reflexivity|]; split; [reflexivity|];
         cbn [startChallenge_fulfilled startChallenge_rejected
              handleCheckIn_fulfilled handleCheckIn_rejected handleCheckIn_catch
              loadChallenges
              setModalVisible setCheckInModal setCheckInNotes setIsSubmitting
              with_ui Alert_alert send settled inflight];
         rewrite ?app_nil_r; reflexivity.
Qed.

Lemma alerts_and_fetches_frame_witness :
  alerts (press (OpenCheckIn (sample_challenge "hydration" 1 3 false []))
            (loaded (sample_challenge "hydration" 1 3 false []))) = [].
Proof.
  destruct (alerts_and_fetches_frame sample_env
              (loaded (sample_challenge "hydration" 1 3 false []))
              (Press (OpenCheckIn (sample_challenge "hydration" 1 3 false [])))
              (press (OpenCheckIn (sample_challenge "hydration" 1 3 false []))
                 (loaded (sample_challenge "hydration" 1 3 false [])))
              eq_refl) as [[H _]|(i & r & o & a & Hev & _)].
  - exact H.
  - discriminate Hev.
Defined.

(** ** Error texts *)

(** X17.  The error alert of either workflow always carries a truthy
    message: the backend's detail whenever it is truthy, of whatever type,
    and the workflow's own fallback text otherwise.  When the detail is a
    string or is missing, the message is a non-empty string: the detail
    when it is not empty, the fallback when it is missing or empty. *)
Theorem error_alert_never_blank (w : World) (error : AxiosError) :
  exists created checked : value,
    alerts (startChallenge_rejected error w)
    = alerts w ++ [{| alert_title := js "Error";
                      alert_message := [Interp created];
                      alert_buttons := [] |}]
    /\ alerts (handleCheckIn_rejected error w)
       = alerts w ++ [{| alert_title := js "Error";
                         alert_message := [Interp checked];
                         alert_buttons := [] |}]
    /\ truthy_value created = true /\ truthy_value checked = true
    /\ (truthy_value (detail error) = true ->
        created = detail error /\ checked = detail error)
    /\ (truthy_value (detail error) = false ->
        created = VString (js "Failed to start challenge")
        /\ checked = VString (js "Failed to check in"))
    /\ (forall d, detail error = VString d -> d <> [] ->
        created = VString d /\ checked = VString d)
    /\ (detail error = VUndefined \/ detail error = VString [] ->
        created = VString (js "Failed to start challenge")
        /\ checked = VString (js "Failed to check in")).
Proof.
  exists (or_value (detail error) (VString (js "Failed to start challenge"))),
         (or_value (detail error) (VString (js "Failed to check in"))).
  split; [reflexivity|]. split; [reflexivity|].
  unfold or_value.
  destruct (truthy_value (detail error)) eqn:Ht.
  - split; [exact Ht|]. split; [exact Ht|]. split; [auto|].
    split; [discriminate|]. split.
    + intros d -> _. split; reflexivity.
    + intros [H|H]; rewrite H in Ht; discriminate Ht.
  - split; [reflexivity|]. split; [reflexivity|]. split; [discriminate|].
    split; [auto|]. split.
    + intros d Hd Hne. rewrite Hd in Ht. destruct d; [destruct Hne; reflexivity|].
      discriminate Ht.
    + intros _. split; reflexivity.
Qed.

Lemma error_alert_never_blank_witness :
  alerts (handleCheckIn_rejected {| detail := VObject [] |}
            (loaded (sample_challenge "hydration" 1 3 false [])))
  = [error_alert {| detail := VObject [] |} "Failed to check in"]
  /\ alerts (handleCheckIn_rejected {| detail := VString [] |}
               (loaded (sample_challenge "hydration" 1 3 false [])))
     = [error_alert TypeError "Failed to check in"].
Proof.
  destruct (error_alert_never_blank
              (loaded (sample_challenge "hydration" 1 3 false []))
              {| detail := VObject [] |})
    as (created & checked & _ & Hal & _ & _ & Hd & _).
  destruct (Hd eq_refl) as [_ E]. rewrite E in Hal.
  split; [exact Hal|reflexivity].
Defined.

(** ** Typing and trimming notes *)

(** X18.  The notes can be edited exactly while the check-in modal is open on the
    loaded screen, also while a request is in flight; an edit replaces the
    notes by the new text and changes nothing else. *)
Theorem notes_editable_while_open (env : Env) (w : World) (text : jsstring) :
  (isLoading (ui w) = false /\ checkInModal (ui w) = true ->
   step env w (ChangeText text) = Some (setCheckInNotes text w))
  /\ (step env w (ChangeText text) <> None ->
      isLoading (ui w) = false /\ checkInModal (ui w) = true).
Proof.
  cbn [step]. rewrite inputs_render. split.
  - intros [-> ->]. reflexivity.
  - destruct (isLoading (ui w)), (checkInModal (ui w)); intros H;
      try (exfalso; apply H; reflexivity); auto.
Qed.

Lemma trimStart_white (s : jsstring) : trimStart s = [] <-> all_white s.
Proof.
  unfold all_white. induction s as [|a s IH]; simpl.
  - split; [constructor|reflexivity].
  - destruct (is_white a) eqn:E.
    + rewrite IH. split; [intros H; constructor; assumption|].
      intros H. inversion H; assumption.
    + split; [discriminate|]. intros H. inversion H; congruence.
Qed.

Lemma trimStart_split (s : jsstring) :
  exists p, s = p ++ trimStart s /\ all_white p.
Proof.
  unfold all_white. induction s as [|a s (p & IH & Hp)].
  - exists []. split; [reflexivity|constructor].
  - simpl. destruct (is_white a) eqn:E.
    + exists (a :: p). split; [simpl; f_equal; exact IH|constructor; assumption].
    + exists []. split; [reflexivity|constructor].
Qed.

Lemma all_white_rev (s : jsstring) : all_white (rev s) <-> all_white s.
Proof.
  unfold all_white. split; intros H.
  - rewrite <- (rev_involutive s). apply List.Forall_rev, H.
  - apply List.Forall_rev, H.
Qed.

(** [trim] removes a white prefix and a white suffix and nothing else. *)
Lemma trim_split (s : jsstring) :
  exists p q, s = p ++ trim s ++ q /\ all_white p /\ all_white q.
Proof.
  destruct (trimStart_split s) as (p & Hs & Hp).
  destruct (trimStart_split (rev (trimStart s))) as (q & Hr & Hq).
  exists p, (rev q). split; [|split; [exact Hp|apply all_white_rev, Hq]].
  unfold trim, trimEnd. rewrite <- rev_app_distr, <- Hr, rev_involutive. exact Hs.
Qed.

Lemma trim_white (s : jsstring) : trim s = [] <-> all_white s.
Proof.
  split.
  - intros H. destruct (trim_split s) as (p & q & Hs & Hp & Hq).
    rewrite H in Hs. rewrite Hs. unfold all_white in *.
    apply Forall_app. split; assumption.
  - intros H. unfold trim, trimEnd.
    apply trimStart_white in H. rewrite H. reflexivity.
Qed.

(** X19.  The [notes] property is left out of the check-in request exactly when
    the typed notes are blank (empty or white space only); otherwise the
    value sent is the typed text without its white prefix and suffix, and
    it neither starts nor ends with white space. *)
Theorem notes_dropped_iff_blank (w : World) (selected : Challenge) :
  selectedChallenge (ui w) = Some selected ->
  exists body,
    inflight (handleCheckIn w) = inflight w ++ [PostCheckIn body]
    /\ (json_get (js "notes") body = None <-> all_white (checkInNotes (ui w)))
    /\ (forall v, json_get (js "notes") body = Some (JString v) ->
          (exists p q, checkInNotes (ui w) = p ++ v ++ q
                       /\ all_white p /\ all_white q)
          /\ (forall c rest, v = c :: rest -> is_white c = false)
          /\ (forall c front, v = front ++ [c] -> is_white c = false)).
Proof.
  intros Hsel. unfold handleCheckIn. rewrite Hsel.
  eexists. split; [reflexivity|].
  cbn [setIsSubmitting with_ui ui checkInNotes].
  unfold checkin_body. rewrite or_undefined_spec.
  assert (Hne : jsstring_eqb (js "notes") (js "challenge_id") = false) by reflexivity.
  pose proof (trim_white (checkInNotes (ui w))) as Hwhite.
  pose proof (trim_split (checkInNotes (ui w))) as Hsplit.
  pose proof (trim_ends (checkInNotes (ui w))) as [Hhead Hlast].
  destruct (trim (checkInNotes (ui w))) as [|c rest] eqn:Ht;
    cbn [stringify json_of_value of_option json_get];
    rewrite ?jsstring_eqb_refl, ?Hne.
  - split; [split; [intros _; apply Hwhite; reflexivity|reflexivity]|].
    intros v Hv. discriminate Hv.
  - split.
    + split; [discriminate|]. intros H. apply Hwhite in H. discriminate H.
    + intros v [= <-]. split; [exact Hsplit|]. split; [exact Hhead|exact Hlast].
Qed.

Lemma notes_dropped_iff_blank_witness :
  exists body,
    inflight (handleCheckIn (checking_in (sample_challenge "hydration" 1 3 false [])
                                         ([9; 32; 160]%N)))
    = [PostCheckIn body]
    /\ json_get (js "notes") body = None.
Proof.
  destruct (notes_dropped_iff_blank
              (checking_in (sample_challenge "hydration" 1 3 false []) ([9; 32; 160]%N))
              (sample_challenge "hydration" 1 3 false []) eq_refl)
    as (body & Hsent & Hblank & _).
  exists body. split; [exact Hsent|].
  apply Hblank. repeat constructor.
Defined.

(** ** Selection across a reload *)

(** X20.  An answer to the list fetch neither closes the check-in modal nor
    refreshes the selected challenge: if submitting was possible before
    the answer it is possible after it, whatever the answer holds, and the
    request sent is still built from the snapshot selected earlier. *)
Theorem selection_survives_reload (env : Env) (w : World) (i : nat)
    (data : list Challenge) (selected : Challenge) :
  inflight w !! i = Some GetActive ->
  selectedChallenge (ui w) = Some selected ->
  pressable (render env (ui w)) HandleCheckIn = true ->
  exists w' w'',
    step env w (Settle i (Fulfilled (ActiveChallenges data))) = Some w'
    /\ challenges (ui w') = data
    /\ selectedChallenge (ui w') = Some selected
    /\ step env w' (Press HandleCheckIn) = Some w''
    /\ inflight w''
       = delete i (inflight w)
         ++ [PostCheckIn (stringify (checkin_body selected (checkInNotes (ui w))))].
Proof.
  intros Hi Hsel Hen.
  apply pressable_HandleCheckIn in Hen as (Hl & Hm & Hs).
  set (w' := loadChallenges_fulfilled data (settled i w)).
  assert (Hen' : pressable (render env (ui w')) HandleCheckIn = true).
  { apply pressable_HandleCheckIn. subst w'. repeat split; assumption. }
  exists w', (press HandleCheckIn w'). split.
  { cbn [step]. rewrite Hi. reflexivity. }
  split; [reflexivity|]. split; [exact Hsel|]. split.
  { cbn [step]. rewrite Hen'. reflexivity. }
  cbn [press]. unfold handleCheckIn.
  replace (selectedChallenge (ui w')) with (Some selected) by (symmetry; exact Hsel).
  reflexivity.
Qed.

Lemma selection_survives_reload_witness :
  let open := sample_challenge "hydration" 2 3 false [] in
  let done := sample_challenge "hydration" 3 3 true [js "challenge_completed"] in
  exists w' w'',
    step sample_env (loadChallenges (checking_in open []))
         (Settle 0 (Fulfilled (ActiveChallenges [done]))) = Some w'
    /\ challenges (ui w') = [done]
    /\ step sample_env w' (Press HandleCheckIn) = Some w''
    /\ inflight w'' = [PostCheckIn [(js "challenge_id", JString (js "c1"))]].
Proof.
  cbv zeta.
  destruct (selection_survives_reload sample_env
              (loadChallenges (checking_in (sample_challenge "hydration" 2 3 false []) []))
              0 [sample_challenge "hydration" 3 3 true [js "challenge_completed"]]
              (sample_challenge "hydration" 2 3 false [])
              eq_refl eq_refl eq_refl)
    as (w' & w'' & Hstep & Hlist & _ & Hpress & Hsent).
  exists w', w''. split; [exact Hstep|]. split; [exact Hlist|].
  split; [exact Hpress|exact Hsent].
Defined.
